(** * masa-resorte: the spring-mass simulator of [points.js] and its animation

    A shallow embedding of the local trajectory generator [simulateSystem],
    of the request handler [ejecutarSimulacion] (validation, storing the
    results, auto-scaling of the chart) and of the frame-advance step of the
    [SpringMassSimulation] component; then the chart rows of
    [EnhancedGraphWithPoints], the drawing of the mass and the spring, the
    handlers [cargarEjemplo] and [reiniciarSimulacion], and the request
    handler of [App.js] with the remote service as a parameter.

    Numbers.  A JavaScript number is an IEEE-754 double.  The closed forms of
    the generator use [Math.sqrt], [Math.cos], [Math.sin] and [Math.exp]; they
    are modelled on the real numbers, so rounding, overflow and NaN inputs are
    outside the model.  The two places where the code itself produces an
    infinity from finite data ([Math.max()] and [Math.min()] of an empty
    array) are kept, through the type [number] below.

    In this first model the number of samples and the choice of the branch
    are those of the exact quotients as well.  The statements that depend on
    them (the lengths, the regime reported, the last branch, the validation)
    are made on a second model, [B64], where the inputs are doubles and the
    floor, the comparisons and the call of [Math.max] on a long array follow
    the code. *)

From Stdlib Require Import Floats.
From Stdlib Require Import Reals Lra Lia ZArith Bool String List Sorted.
Import ListNotations.

Open Scope R_scope.

(** ** The pieces of the JavaScript runtime the program uses *)

Module JS.

(** [String.prototype.includes]: [sub] occurs somewhere in [s]. *)
Fixpoint includes (s sub : string) : bool :=
  if String.prefix sub s then true
  else match s with
       | EmptyString => false
       | String _ s' => includes s' sub
       end.

(** [Math.floor] of a real: the integer part, kept as an integer. *)
Definition Math_floor (x : R) : Z := Int_part x.

(** [Array.prototype.push] *)
Definition push {A : Type} (xs : list A) (x : A) : list A := xs ++ [x].

(** Results of [Math.max(...xs)] and [Math.min(...xs)] and of the
    arithmetic done on them: finite reals and the two infinities, with NaN
    for the undefined combinations. *)
Inductive number : Type :=
| NegInfinity
| Num (r : R)
| PosInfinity
| NaN.

Fixpoint Math_max (xs : list R) : number :=
  match xs with
  | [] => NegInfinity
  | x :: xs' =>
      match Math_max xs' with
      | Num y => Num (Rmax x y)
      | _ => Num x
      end
  end.

Fixpoint Math_min (xs : list R) : number :=
  match xs with
  | [] => PosInfinity
  | x :: xs' =>
      match Math_min xs' with
      | Num y => Num (Rmin x y)
      | _ => Num x
      end
  end.

Definition nopp (a : number) : number :=
  match a with
  | NegInfinity => PosInfinity
  | Num r => Num (- r)
  | PosInfinity => NegInfinity
  | NaN => NaN
  end.

Definition nadd (a b : number) : number :=
  match a, b with
  | NaN, _ | _, NaN => NaN
  | Num x, Num y => Num (x + y)
  | PosInfinity, NegInfinity | NegInfinity, PosInfinity => NaN
  | PosInfinity, _ | _, PosInfinity => PosInfinity
  | NegInfinity, _ | _, NegInfinity => NegInfinity
  end.

Definition nsub (a b : number) : number := nadd a (nopp b).

(** An infinity times a finite factor takes the factor's sign; times zero
    it is NaN. *)
Definition scale_inf (inf : number) (r : R) : number :=
  if Rlt_dec 0 r then inf
  else if Rlt_dec r 0 then nopp inf
  else NaN.

Definition nmul (a b : number) : number :=
  match a, b with
  | NaN, _ | _, NaN => NaN
  | Num x, Num y => Num (x * y)
  | Num x, inf => scale_inf inf x
  | inf, Num y => scale_inf inf y
  | PosInfinity, PosInfinity | NegInfinity, NegInfinity => PosInfinity
  | PosInfinity, NegInfinity | NegInfinity, PosInfinity => NegInfinity
  end.

(** [a < b] on numbers; every comparison with NaN is false. *)
Definition nlt (a b : number) : Prop :=
  match a, b with
  | Num x, Num y => x < y
  | NegInfinity, Num _ | NegInfinity, PosInfinity | Num _, PosInfinity => True
  | _, _ => False
  end.

End JS.

Import JS.

(** ** Data model: the component's state objects *)

(** [parametros]: the system parameters of the form. *)
Record Parametros : Type := mkParametros {
  masa : R;
  constante_resorte : R;
  constante_amortiguamiento : R;
  fuerza : string;
  tipo_ecuacion : string
}.

(** [controlSimulacion]: time window and initial conditions. *)
Record ControlSimulacion : Type := mkControl {
  step_time : R;
  stop_time : R;
  valor_inicial : R;
  velocidad_inicial : R
}.

(** The [parametros] object of the result: the input spread, then the
    derived quantities. *)
Record ParametrosSalida : Type := mkParametrosSalida {
  entrada : Parametros;
  frecuencia_natural : R;
  coeficiente_amortiguamiento : R;
  tipo_amortiguamiento : string;
  beta : R;
  omega_0 : R
}.

Record Estadisticas : Type := mkEstadisticas {
  posicion_maxima : number;
  posicion_minima : number;
  amplitud : number;
  velocidad_maxima : number;
  velocidad_minima : number;
  aceleracion_maxima : number;
  aceleracion_minima : number
}.

(** The object [simulateSystem] returns. *)
Record Resultados : Type := mkResultados {
  tiempo : list R;
  posicion : list R;
  velocidad : list R;
  aceleracion : list R;
  parametros : ParametrosSalida;
  estadisticas : Estadisticas
}.

(** The four arrays the loop of [simulateSystem] fills. *)
Record Puntos : Type := mkPuntos {
  timePoints : list R;
  positionPoints : list R;
  velocityPoints : list R;
  accelerationPoints : list R
}.

Definition puntos_vacios : Puntos := mkPuntos [] [] [] [].

(** ** The trajectory generator [simulateSystem] *)

Section Generator.

Variable p : Parametros.
Variable c : ControlSimulacion.

(** The test of the first branch:
    [tipo_ecuacion.includes('no_amortiguado') && !tipo_ecuacion.includes('forzado')]. *)
Definition armonico_simple : bool :=
  includes (tipo_ecuacion p) "no_amortiguado"
  && negb (includes (tipo_ecuacion p) "forzado").

(** One sample: position, velocity and acceleration at time [t]. *)
Definition muestra (omega zeta t : R) : R * R * R :=
  if armonico_simple then
    (* Simple harmonic motion *)
    let position :=
      valor_inicial c * cos (omega * t)
      + (velocidad_inicial c / omega) * sin (omega * t) in
    let velocity :=
      - valor_inicial c * omega * sin (omega * t)
      + velocidad_inicial c * cos (omega * t) in
    let acceleration :=
      - valor_inicial c * omega * omega * cos (omega * t)
      - velocidad_inicial c * omega * sin (omega * t) in
    (position, velocity, acceleration)
  else if Rlt_dec zeta 1 then
    (* Underdamped *)
    let omegaD := omega * sqrt (1 - zeta * zeta) in
    let A := valor_inicial c in
    let B := (velocidad_inicial c + zeta * omega * A) / omegaD in
    let envelope := exp (- zeta * omega * t) in
    let cosine := cos (omegaD * t) in
    let sine := sin (omegaD * t) in
    let position := envelope * (A * cosine + B * sine) in
    let velocity :=
      envelope * ((- zeta * omega * A + omegaD * B) * cosine
                  + (- omegaD * A - zeta * omega * B) * sine) in
    let acceleration :=
      - constante_resorte p / masa p * position
      - constante_amortiguamiento p / masa p * velocity in
    (position, velocity, acceleration)
  else
    (* Overdamped or critically damped (simplified) *)
    let position :=
      valor_inicial c * exp (- zeta * omega * t) * cos (omega * t) in
    let velocity :=
      valor_inicial c * exp (- zeta * omega * t)
      * (- zeta * omega * cos (omega * t) - omega * sin (omega * t)) in
    let acceleration :=
      - constante_resorte p / masa p * position
      - constante_amortiguamiento p / masa p * velocity in
    (position, velocity, acceleration).

(** The body of the loop for the counter [i]. *)
Definition paso (omega zeta dt : R) (i : Z) (pts : Puntos) : Puntos :=
  let t := step_time c + IZR i * dt in
  let '(position, velocity, acceleration) := muestra omega zeta t in
  {| timePoints := push (timePoints pts) t;
     positionPoints := push (positionPoints pts) position;
     velocityPoints := push (velocityPoints pts) velocity;
     accelerationPoints := push (accelerationPoints pts) acceleration |}.

(** [for (let i = ...; i <= steps; i++) { ... }], with [fuel] bounding the
    number of iterations. *)
Fixpoint for_loop (omega zeta dt : R) (steps : Z)
         (fuel : nat) (i : Z) (pts : Puntos) : Puntos :=
  match fuel with
  | O => pts
  | S fuel' =>
      if (i <=? steps)%Z
      then for_loop omega zeta dt steps fuel' (i + 1)%Z (paso omega zeta dt i pts)
      else pts
  end.

Definition simulateSystem : Resultados :=
  let dt := 0.01 in
  let totalTime := stop_time c - step_time c in
  let steps := Math_floor (totalTime / dt) in
  (* System parameters *)
  let omega := sqrt (constante_resorte p / masa p) in
  let zeta :=
    constante_amortiguamiento p / (2 * sqrt (masa p * constante_resorte p)) in
  let pts :=
    for_loop omega zeta dt steps (Z.to_nat (steps + 1)) 0%Z puntos_vacios in
  {| tiempo := timePoints pts;
     posicion := positionPoints pts;
     velocidad := velocityPoints pts;
     aceleracion := accelerationPoints pts;
     parametros :=
       {| entrada := p;
          frecuencia_natural := omega;
          coeficiente_amortiguamiento := zeta;
          tipo_amortiguamiento :=
            if Rlt_dec zeta 1 then "subamortiguado"
            else if Req_dec_T zeta 1 then "crítico"
            else "sobreamortiguado";
          beta := constante_amortiguamiento p / (2 * masa p);
          omega_0 := omega |};
     estadisticas :=
       {| posicion_maxima := Math_max (positionPoints pts);
          posicion_minima := Math_min (positionPoints pts);
          amplitud :=
            nsub (Math_max (positionPoints pts)) (Math_min (positionPoints pts));
          velocidad_maxima := Math_max (velocityPoints pts);
          velocidad_minima := Math_min (velocityPoints pts);
          aceleracion_maxima := Math_max (accelerationPoints pts);
          aceleracion_minima := Math_min (accelerationPoints pts) |} |}.

End Generator.

(** ** The request handler [ejecutarSimulacion] *)

(** [escalaGrafico]: the display range of the chart. *)
Record EscalaGrafico : Type := mkEscala {
  y_min : number;
  y_max : number;
  auto_escala : bool
}.

(** The [useState] cells of [SimuladorMasaResorte] the handler reads or
    writes. *)
Record Estado : Type := mkEstado {
  st_parametros : Parametros;
  st_control : ControlSimulacion;
  escalaGrafico : EscalaGrafico;
  resultados : option Resultados;
  loading : bool;
  error : string
}.

(** State and exceptions: a computation runs on the state cells and either
    returns a value or throws an [Error] with its message; the state reached
    so far is kept in both cases. *)
Module Handler.

Definition M (A : Type) : Type := Estado -> (string + A) * Estado.

Definition ret {A : Type} (a : A) : M A := fun st => (inr a, st).

Definition bind {A B : Type} (m : M A) (k : A -> M B) : M B :=
  fun st =>
    match m st with
    | (inl msg, st') => (inl msg, st')
    | (inr a, st') => k a st'
    end.

(** [throw new Error(msg)] *)
Definition throw {A : Type} (msg : string) : M A := fun st => (inl msg, st).

(** [c; finally { last }]: [last] runs whatever [c] did; an exception of [c]
    goes on unless [last] throws one of its own. *)
Definition finally (c last : M unit) : M unit :=
  fun st =>
    match c st with
    | (res, st') =>
        match last st' with
        | (inl msg, st'') => (inl msg, st'')
        | (inr _, st'') => (res, st'')
        end
    end.

(** [try { body } catch (err) { handler(err.message) } finally { last }] *)
Definition try_catch_finally (body : M unit) (handler : string -> M unit)
           (last : M unit) : M unit :=
  finally
    (fun st =>
       match body st with
       | (inl msg, st') => handler msg st'
       | (inr _, st') => (inr tt, st')
       end)
    last.

Definition setLoading (b : bool) : M unit :=
  fun st => (inr tt, mkEstado (st_parametros st) (st_control st)
                       (escalaGrafico st) (resultados st) b (error st)).

Definition setError (msg : string) : M unit :=
  fun st => (inr tt, mkEstado (st_parametros st) (st_control st)
                       (escalaGrafico st) (resultados st) (loading st) msg).

Definition setResultados (r : option Resultados) : M unit :=
  fun st => (inr tt, mkEstado (st_parametros st) (st_control st)
                       (escalaGrafico st) r (loading st) (error st)).

(** [setEscalaGrafico(prev => f(prev))] *)
Definition setEscalaGrafico (f : EscalaGrafico -> EscalaGrafico) : M unit :=
  fun st => (inr tt, mkEstado (st_parametros st) (st_control st)
                       (f (escalaGrafico st)) (resultados st)
                       (loading st) (error st)).

End Handler.

Import Handler.

Notation "m1 ;; m2" := (bind m1 (fun _ => m2))
  (at level 61, right associativity).

(** [msg || alt] on strings: the empty string is falsy. *)
Definition o_bien (msg alt : string) : string :=
  match msg with
  | EmptyString => alt
  | _ => msg
  end.

(** The "Validate inputs" block. *)
Definition validar (p : Parametros) : M unit :=
  (if Rle_dec (masa p) 0
   then throw "La masa debe ser positiva" else ret tt) ;;
  (if Rle_dec (constante_resorte p) 0
   then throw "La constante del resorte debe ser positiva" else ret tt) ;;
  (if Rlt_dec (constante_amortiguamiento p) 0
   then throw "La constante de amortiguamiento no puede ser negativa"
   else ret tt).

(** The "Auto-scale graph" update for the position series [posiciones];
    [App.js] has the same statements, on the trajectory the remote service
    returns. *)
Definition autoEscala (posiciones : list R) (prev : EscalaGrafico) : EscalaGrafico :=
  let margen := Num 0.1 in
  let rango := nsub (Math_max posiciones) (Math_min posiciones) in
  {| y_min := nsub (Math_min posiciones) (nmul rango margen);
     y_max := nadd (Math_max posiciones) (nmul rango margen);
     auto_escala := auto_escala prev |}.

(** [ejecutarSimulacion], run in the render whose state cells are [snap]: the
    closure reads [parametros], [controlSimulacion] and [escalaGrafico] from
    [snap].  The one-second [await] between the validation and the call of
    [simulateSystem] changes no cell and is left out. *)
Definition ejecutarSimulacion (snap : Estado) : M unit :=
  setLoading true ;;
  setError "" ;;
  try_catch_finally
    (validar (st_parametros snap) ;;
     let data := simulateSystem (st_parametros snap) (st_control snap) in
     setResultados (Some data) ;;
     (* Auto-scale graph if enabled *)
     if auto_escala (escalaGrafico snap)
     then setEscalaGrafico (autoEscala (posicion data))
     else ret tt)
    (fun message => setError (o_bien message "Error en la simulación"))
    (setLoading false).

(** A click on the button: the handler runs on the current state. *)
Definition ejecutar (st : Estado) : Estado := snd (ejecutarSimulacion st st).

(** ** The animation of [SpringMassSimulation] *)

(** [currentFrame] and [animationSpeed] are the component's own cells;
    [isPlaying] and [currentAnimationFrame] are the parent's
    ([isAnimationPlaying], written by [onPlayPause] and [onReset], and the
    target of [onFrameUpdate]). *)
Record Animacion : Type := mkAnimacion {
  currentFrame : R;
  animationSpeed : R;
  isPlaying : bool;
  currentAnimationFrame : R
}.

Definition animacion_inicial : Animacion := mkAnimacion 0 1 false 0.

(** [handleAnimationPlayPause]: [setIsAnimationPlaying(!isAnimationPlaying)] *)
Definition handleAnimationPlayPause (a : Animacion) : Animacion :=
  mkAnimacion (currentFrame a) (animationSpeed a) (negb (isPlaying a))
              (currentAnimationFrame a).

(** [handleReset]: [setCurrentFrame(0)], then the parent's
    [handleAnimationReset]. *)
Definition handleReset (a : Animacion) : Animacion :=
  mkAnimacion 0 (animationSpeed a) false (currentAnimationFrame a).

Definition setAnimationSpeed (s : R) (a : Animacion) : Animacion :=
  mkAnimacion (currentFrame a) s (isPlaying a) (currentAnimationFrame a).

(** The values of the speed selector. *)
Definition velocidades : list R := [0.25; 0.5; 1; 2; 4].

(** [animate]: one tick of the interval. *)
Definition animate (r : Resultados) (a : Animacion) : Animacion :=
  let prevFrame := currentFrame a in
  let nextFrame := prevFrame + animationSpeed a in
  if Rge_dec nextFrame (INR (length (posicion r))) then
    (* Auto-pause when animation completes *)
    let a' := handleAnimationPlayPause a in
    mkAnimacion (INR (length (posicion r)) - 1) (animationSpeed a')
                (isPlaying a') (currentAnimationFrame a')
  else
    mkAnimacion nextFrame (animationSpeed a) (isPlaying a) nextFrame.

(** What can happen to the animation of the trajectory [r]: a tick of the
    interval, which exists only while [isPlaying] holds, or one of the three
    controls; [vs] are the speeds the selector offers. *)
Inductive paso_animacion (vs : list R) (r : Resultados) :
  Animacion -> Animacion -> Prop :=
| paso_tick : forall a,
    isPlaying a = true -> paso_animacion vs r a (animate r a)
| paso_play_pause : forall a,
    paso_animacion vs r a (handleAnimationPlayPause a)
| paso_reset : forall a,
    paso_animacion vs r a (handleReset a)
| paso_velocidad : forall a s,
    In s vs -> paso_animacion vs r a (setAnimationSpeed s a).

Inductive alcanzable_con (vs : list R) (r : Resultados) : Animacion -> Prop :=
| alcanzable_inicial : alcanzable_con vs r animacion_inicial
| alcanzable_paso : forall a a',
    alcanzable_con vs r a -> paso_animacion vs r a a' -> alcanzable_con vs r a'.

(** The states the component can be in, with the selector as it is. *)
Definition alcanzable (r : Resultados) (a : Animacion) : Prop :=
  alcanzable_con velocidades r a.


(** ** Vocabulary of the statements *)

(** The values [i, i+1, ...] the loop counter takes in [n] iterations. *)
Fixpoint indices (i : Z) (n : nat) : list Z :=
  match n with
  | O => []
  | S n' => i :: indices (i + 1)%Z n'
  end.

(** The sampling instant of index [i]: [t_start + i * 0.01]. *)
Definition instante (c : ControlSimulacion) (i : nat) : R :=
  step_time c + INR i * 0.01.

(** The number of iterations of the loop: [steps + 1] when [steps >= 0]. *)
Definition muestras (c : ControlSimulacion) : nat :=
  Z.to_nat (Math_floor ((stop_time c - step_time c) / 0.01) + 1).

(** The inputs the form accepts: [m > 0], [k > 0], [b >= 0]. *)
Definition parametros_validos (p : Parametros) : Prop :=
  0 < masa p /\ 0 < constante_resorte p /\ 0 <= constante_amortiguamiento p.

(** Natural frequency and damping ratio, as the specification defines them. *)
Definition omega0 (p : Parametros) : R :=
  sqrt (constante_resorte p / masa p).

Definition razon_amortiguamiento (p : Parametros) : R :=
  constante_amortiguamiento p / (2 * sqrt (masa p * constante_resorte p)).

(** Replacing one field of an input object. *)
Definition con_fuerza (f : string) (p : Parametros) : Parametros :=
  mkParametros (masa p) (constante_resorte p) (constante_amortiguamiento p)
               f (tipo_ecuacion p).

Definition con_velocidad_inicial (v : R) (c : ControlSimulacion) : ControlSimulacion :=
  mkControl (step_time c) (stop_time c) (valor_inicial c) v.

(** The initial control state of the component and three parameter sets: the
    initial one and the first two of the examples library. *)
Definition control_inicial : ControlSimulacion := mkControl 0 10 1 0.

Definition parametros_iniciales : Parametros :=
  mkParametros 1 4 0.2 "0" "amortiguado".

Definition oscilacion_simple : Parametros :=
  mkParametros 1 4 0 "0" "no_amortiguado".

Definition amortiguamiento_critico : Parametros :=
  mkParametros 1 4 4 "0" "amortiguado".

(** A mass released at rest from the equilibrium position, with critical
    damping, in the initial state of the page (auto-scaling on, no results). *)
Definition control_reposo : ControlSimulacion := mkControl 0 10 0 0.

Definition estado_reposo : Estado :=
  mkEstado amortiguamiento_critico control_reposo
           (mkEscala (Num (-2)) (Num 2) true) None false "".

(** The trajectory of the initial form values: 1001 samples. *)
Definition resultados_iniciales : Resultados :=
  simulateSystem parametros_iniciales control_inicial.

(** [n] ticks of the interval. *)
Definition ticks (r : Resultados) (n : nat) (a : Animacion) : Animacion :=
  Nat.iter n (animate r) a.


(** ** More of the runtime: arithmetic on [number] *)

(** [Math.abs] *)
Definition Math_abs (a : number) : number :=
  match a with
  | NegInfinity | PosInfinity => PosInfinity
  | Num r => Num (Rabs r)
  | NaN => NaN
  end.

(** [Math.max(a, b)] and [Math.min(a, b)] of two numbers. *)
Definition Math_max2 (a b : number) : number :=
  match a, b with
  | NaN, _ | _, NaN => NaN
  | PosInfinity, _ | _, PosInfinity => PosInfinity
  | NegInfinity, x | x, NegInfinity => x
  | Num x, Num y => Num (Rmax x y)
  end.

(** [a / b]; a division by zero gives an infinity with the sign of the
    numerator (the reals have one zero, taken as [+0]), and [0 / 0] is NaN. *)
Definition ndiv (a b : number) : number :=
  match a, b with
  | NaN, _ | _, NaN => NaN
  | Num x, Num y => if Req_dec_T y 0 then scale_inf PosInfinity x else Num (x / y)
  | Num _, _ => Num 0
  | inf, Num y => if Rlt_dec y 0 then nopp inf else inf
  | _, _ => NaN
  end.

(** [x || alt] on numbers: 0 and NaN are falsy. *)
Definition o_numero (x alt : number) : number :=
  match x with
  | NaN => alt
  | Num r => if Req_dec_T r 0 then alt else x
  | _ => x
  end.

(** [xs[i]] for an integer-valued index: [undefined] outside the array. *)
Definition elemento {A : Type} (xs : list A) (i : Z) : option A :=
  if (i <? 0)%Z then None else nth_error xs (Z.to_nat i).

(** [parseFloat(x.toFixed(digitos))]: [toFixed] prints the integer [n] with
    [n / 10^digitos] nearest to [|x|] (the larger one on a tie) behind the
    sign of [x], and prints [x] itself from [10^21] on; [parseFloat] reads
    the number back. *)
Definition parseFloat_toFixed (digitos : nat) (x : R) : R :=
  if Rle_dec (10 ^ 21) (Rabs x) then x
  else
    (if Rlt_dec x 0 then -1 else 1)
    * IZR (Math_floor (Rabs x * 10 ^ digitos + 1 / 2)) / 10 ^ digitos.

(** ** The display of [SpringMassSimulation] *)

Module Dibujo.

(** Animation parameters *)
Definition springWidth : R := 40.
Definition massSize : R := 30.
Definition svgHeight : R := 400.
Definition svgWidth : R := 200.
Definition springSegments : Z := 10.

(** Calculate spring compression/extension *)
Definition equilibriumPosition : R := svgHeight / 2.

Definition maxAmplitude (r : Resultados) : number :=
  Math_max2
    (Math_abs (o_numero (posicion_maxima (estadisticas r)) (Num 1)))
    (Math_abs (o_numero (posicion_minima (estadisticas r)) (Num 1))).

(** Scale to fit in 80px range *)
Definition scale (r : Resultados) : number :=
  ndiv (Num 80) (Math_max2 (maxAmplitude r) (Num 1)).

(** [resultados.posicion[Math.floor(currentFrame)] || 0] *)
Definition currentPosition (r : Resultados) (frame : R) : R :=
  match elemento (posicion r) (Math_floor frame) with
  | Some x => if Req_dec_T x 0 then 0 else x
  | None => 0
  end.

Definition massY (r : Resultados) (frame : R) : number :=
  nsub (Num equilibriumPosition) (nmul (Num (currentPosition r frame)) (scale r)).

(** A command of SVG path data; [generateSpringPath] prints them one after
    the other into a string, [M x y] first and an [L x y] per point. *)
Inductive Comando : Type :=
| M_ (x y : number)
| L_ (x y : number).

Definition ordenada (k : Comando) : number :=
  match k with M_ _ y | L_ _ y => y end.

Definition abscisa (k : Comando) : number :=
  match k with M_ x _ | L_ x _ => x end.

(** The body of the loop of [generateSpringPath] for the counter [i]. *)
Definition paso_resorte (springTop segmentHeight : number) (segments : Z)
           (i : Z) (path : list Comando) : list Comando :=
  let y := nadd springTop (nmul (Num (IZR i)) segmentHeight) in
  let x := Num (svgWidth / 2 + (if (i mod 2 =? 1)%Z then springWidth / 2 else - springWidth / 2)) in
  let path := push path (L_ x y) in
  if (i <? segments)%Z then
    let nextY := nadd springTop (nmul (Num (IZR i + 0.5)) segmentHeight) in
    push path (L_ (Num (svgWidth / 2)) nextY)
  else path.

Fixpoint bucle_resorte (springTop segmentHeight : number) (segments : Z)
         (fuel : nat) (i : Z) (path : list Comando) : list Comando :=
  match fuel with
  | O => path
  | S fuel' =>
      if (i <=? segments)%Z
      then bucle_resorte springTop segmentHeight segments fuel' (i + 1)%Z
             (paso_resorte springTop segmentHeight segments i path)
      else path
  end.

(** Generate zigzag spring path *)
Definition generateSpringPath (compressionY : number) : list Comando :=
  let segments := springSegments in
  let springTop := Num 50 in
  let springBottom := nsub compressionY (Num (massSize / 2)) in
  let segmentHeight := ndiv (nsub springBottom springTop) (Num (IZR segments)) in
  let path := [M_ (Num (svgWidth / 2)) springTop] in
  bucle_resorte springTop segmentHeight segments (Z.to_nat segments) 1 path.

(** [((currentFrame + 1) / resultados.posicion.length) * 100] *)
Definition progress (r : Resultados) (frame : R) : number :=
  nmul (ndiv (Num (frame + 1)) (Num (INR (length (posicion r))))) (Num 100).

(** The number shown in "Frame n de N": [Math.floor(currentFrame + 1)]. *)
Definition numero_de_frame (frame : R) : Z := Math_floor (frame + 1).

End Dibujo.

(** ** The chart data of [EnhancedGraphWithPoints] *)

(** A row of the chart. *)
Record Punto : Type := mkPunto {
  pt_tiempo : R;
  pt_posicion : R;
  pt_velocidad : R;
  pt_aceleracion : R
}.

(** The callback of [resultados.tiempo.map] from the index [index] on;
    [None] is the [TypeError] of calling [toFixed] on [undefined], when one
    of the other arrays has no element at the index. *)
Fixpoint filas_desde (r : Resultados) (index : nat) (ts : list R) : option (list Punto) :=
  match ts with
  | [] => Some []
  | t :: ts' =>
      match nth_error (posicion r) index,
            nth_error (velocidad r) index,
            nth_error (aceleracion r) index with
      | Some x, Some v, Some a =>
          option_map
            (cons {| pt_tiempo := parseFloat_toFixed 3 t;
                     pt_posicion := parseFloat_toFixed 4 x;
                     pt_velocidad := parseFloat_toFixed 4 v;
                     pt_aceleracion := parseFloat_toFixed 4 a |})
            (filas_desde r (S index) ts')
      | _, _, _ => None
      end
  end.

Definition prepararDatosGrafico (resultados : option Resultados) : option (list Punto) :=
  match resultados with
  | None => Some []
  | Some r => filas_desde r 0 (tiempo r)
  end.

(** Get current point data for moving dots; [None] is [null]. *)
Definition getCurrentPointData (graphData : list Punto) (currentAnimationFrame : R)
  : option Punto :=
  if (length graphData =? 0)%nat then None
  else if Rlt_dec currentAnimationFrame 0 then None
  else
    let frameIndex :=
      Z.min (Math_floor currentAnimationFrame) (Z.of_nat (length graphData) - 1) in
    elemento graphData frameIndex.

(** ** The other handlers of [SimuladorMasaResorte] *)

(** An entry of the examples library. *)
Record Ejemplo : Type := mkEjemplo {
  nombre : string;
  descripcion : string;
  ej_masa : R;
  ej_constante_resorte : R;
  ej_constante_amortiguamiento : R;
  ej_fuerza : string;
  ej_tipo_ecuacion : string;
  ej_valor_inicial : R;
  ej_velocidad_inicial : R
}.

(** The examples of the page (the mock data of [points.js], the fallback
    examples of [App.js]). *)
Definition ejemplos : list Ejemplo :=
  [ mkEjemplo "Oscilación Simple"
              "Sistema masa-resorte básico sin amortiguamiento"
              1 4 0 "0" "no_amortiguado" 1 0;
    mkEjemplo "Amortiguamiento Crítico"
              "Sistema con amortiguamiento crítico"
              1 4 4 "0" "amortiguado" 1 0;
    mkEjemplo "Fuerza Senoidal"
              "Sistema forzado con entrada senoidal"
              1 4 0.5 "sin(2*t)" "amortiguado_forzado" 0 0 ].

Definition setParametros (p : Parametros) : M unit :=
  fun st => (inr tt, mkEstado p (st_control st) (escalaGrafico st)
                       (resultados st) (loading st) (error st)).

(** [setControlSimulacion(prev => f(prev))] *)
Definition setControlSimulacion (f : ControlSimulacion -> ControlSimulacion) : M unit :=
  fun st => (inr tt, mkEstado (st_parametros st) (f (st_control st)) (escalaGrafico st)
                       (resultados st) (loading st) (error st)).

Definition reiniciarSimulacion : M unit :=
  setResultados None ;;
  setError "".

Definition cargarEjemplo (ejemplo : Ejemplo) : M unit :=
  setParametros
    {| masa := ej_masa ejemplo;
       constante_resorte := ej_constante_resorte ejemplo;
       constante_amortiguamiento := ej_constante_amortiguamiento ejemplo;
       fuerza := ej_fuerza ejemplo;
       tipo_ecuacion := ej_tipo_ecuacion ejemplo |} ;;
  setControlSimulacion
    (fun prev => {| step_time := step_time prev;
                    stop_time := stop_time prev;
                    valor_inicial := ej_valor_inicial ejemplo;
                    velocidad_inicial := ej_velocidad_inicial ejemplo |}) ;;
  setResultados None.

(** The state after a handler that does not throw. *)
Definition tras (m : M unit) (st : Estado) : Estado := snd (m st).

(** ** The request handler of [App.js], which asks the remote service *)

(** [backendStatus]: 'checking', 'online' or 'offline'. *)
Inductive Status : Type := checking | online | offline.

(** The cells of the page of [App.js]: those of [points.js] and the status
    of the service. *)
Record EstadoApp : Type := mkEstadoApp {
  celdas : Estado;
  backendStatus : Status
}.

Module App.

Definition M (A : Type) : Type := EstadoApp -> (string + A) * EstadoApp.

Definition ret {A : Type} (a : A) : M A := fun st => (inr a, st).

Definition bind {A B : Type} (m : M A) (k : A -> M B) : M B :=
  fun st =>
    match m st with
    | (inl msg, st') => (inl msg, st')
    | (inr a, st') => k a st'
    end.

Definition throw {A : Type} (msg : string) : M A := fun st => (inl msg, st).

(** A handler step of [points.js], run on the cells both pages have. *)
Definition en_celdas {A : Type} (m : Handler.M A) : M A :=
  fun st =>
    match m (celdas st) with
    | (res, e) => (res, mkEstadoApp e (backendStatus st))
    end.

Definition setBackendStatus (s : Status) : M unit :=
  fun st => (inr tt, mkEstadoApp (celdas st) s).

(** [try { body } catch (err) { handler(err.message) } finally { last }] *)
Definition try_catch_finally (body : M unit) (handler : string -> M unit)
           (last : M unit) : M unit :=
  fun st =>
    match (match body st with
           | (inl msg, st') => handler msg st'
           | (inr _, st') => (inr tt, st')
           end) with
    | (res, st') =>
        match last st' with
        | (inl msg, st'') => (inl msg, st'')
        | (inr _, st'') => (res, st'')
        end
    end.

Section Servicio.

(** [process.env.REACT_APP_API_URL || 'http://localhost:5000/api'] *)
Variable API_BASE_URL : string.

(** What [SimulatorAPI.checkHealth] resolves to: [response.ok] of the health
    endpoint, [false] when [fetch] fails. *)
Variable salud : bool.

(** What [SimulatorAPI.simulate] does with the answer of the service: it
    throws an [Error] with a message, or returns [data.resultados], taken to
    have the shape of a trajectory. *)
Variable simulate : Parametros -> ControlSimulacion -> string + Resultados.

Definition checkBackendHealth : M unit :=
  bind (setBackendStatus checking) (fun _ =>
  let isOnline := salud in
  setBackendStatus (if isOnline then online else offline)).

Definition es_offline (s : Status) : bool :=
  match s with offline => true | _ => false end.

(** [ejecutarSimulacion] of [App.js], run in the render whose cells are
    [snap]: [backendStatus], [parametros], [controlSimulacion] and
    [escalaGrafico] are the constants of that render, also after the
    [await]s. *)
Definition ejecutarSimulacion (snap : EstadoApp) : M unit :=
  bind (en_celdas (setLoading true)) (fun _ =>
  bind (en_celdas (setError "")) (fun _ =>
  try_catch_finally
    ((* Check if backend is online *)
     bind (if es_offline (backendStatus snap) then
             bind checkBackendHealth (fun _ =>
             if es_offline (backendStatus snap) then
               throw ("Backend no disponible. Asegúrate de que el servidor esté ejecutándose en "
                      ++ API_BASE_URL)
             else ret tt)
           else ret tt) (fun _ =>
     bind (fun st =>
             match simulate (st_parametros (celdas snap)) (st_control (celdas snap)) with
             | inl msg => (inl msg, st)
             | inr data => (inr data, st)
             end) (fun data =>
     bind (en_celdas (setResultados (Some data))) (fun _ =>
     (* Auto-scale graph if enabled; an array is truthy *)
     bind (if auto_escala (escalaGrafico (celdas snap))
           then en_celdas (setEscalaGrafico (autoEscala (posicion data)))
           else ret tt) (fun _ =>
     setBackendStatus online)))))
    (fun message =>
       bind (en_celdas (setError (o_bien message "Error en la simulación"))) (fun _ =>
       if includes message "conectar" then setBackendStatus offline else ret tt))
    (en_celdas (setLoading false)))).

(** A click on the button of [App.js]. *)
Definition ejecutar (st : EstadoApp) : EstadoApp := snd (ejecutarSimulacion st st).

End Servicio.

End App.

(** ** Inputs of the examples below *)

(** A window of one second: 101 samples. *)
Definition control_corto : ControlSimulacion := mkControl 0 1 1 0.

Definition resultados_cortos : Resultados :=
  simulateSystem parametros_iniciales control_corto.

(** The animation of the initial trajectory after "play" and 200 ticks. *)
Definition animacion_en_200 : Animacion :=
  ticks resultados_iniciales 200 (handleAnimationPlayPause animacion_inicial).

(** Rows for the 1001 samples of the initial trajectory. *)
Definition filas_iniciales : list Punto :=
  map (fun x => mkPunto x x x x) (posicion resultados_iniciales).

(** The default address of the service, a service that answers what the local
    generator computes, and the page of [App.js] with the service online. *)
Definition url_local : string := "http://localhost:5000/api".

Definition servicio_local (p : Parametros) (c : ControlSimulacion) : string + Resultados :=
  inr (simulateSystem p c).

Definition app_en_linea : EstadoApp :=
  mkEstadoApp
    (mkEstado parametros_iniciales control_inicial
              (mkEscala (Num (-2)) (Num 2) true) None false "")
    online.

(** * The generator and the handler on binary64 numbers *)

(** The definitions above read every number as a real.  Three places of
    [points.js] depend on the doubles themselves: the number of iterations
    [Math.floor(totalTime / dt)], the tests [zeta < 1] and [zeta === 1] that
    choose the branch of a sample and the reported regime, and the
    comparisons of the validation.  In this second model the inputs are
    doubles ([float], with the IEEE-754 operations of the kernel) and these
    quantities are computed on doubles, operation by operation as the code
    does.  The sample values stay real numbers: the closed forms are
    evaluated exactly on the real values of the doubles they read, which
    have to be finite for that.  [Math.max(...array)] and
    [Math.min(...array)] throw a [RangeError] when the array has more
    elements than a call takes arguments; that limit and the message are
    the engine's and are parameters here.  Memory is not bounded. *)

Set Warnings "-inexact-float".

Module B64.

(** *** Doubles *)

(** The result of [Math.floor]: an integer, or the argument itself when it
    is an infinity or NaN. *)
Inductive Entero : Type :=
| Finito (z : Z)
| MasInfinito
| MenosInfinito
| NoNumero.

Definition piso_sf (x : spec_float) : Entero :=
  match x with
  | S754_zero _ => Finito 0
  | S754_infinity false => MasInfinito
  | S754_infinity true => MenosInfinito
  | S754_nan => NoNumero
  | S754_finite s m e =>
      Finito (if (0 <=? e)%Z then cond_Zopp s (Zpos m) * 2 ^ e
              else cond_Zopp s (Zpos m) / 2 ^ (- e))%Z
  end.

(** [Math.floor] *)
Definition Math_floor (x : float) : Entero := piso_sf (Prim2SF x).

(** [i <= steps] for an integer [i]. *)
Definition menor_igual (i : Z) (steps : Entero) : bool :=
  match steps with
  | Finito z => (i <=? z)%Z
  | MasInfinito => true
  | MenosInfinito | NoNumero => false
  end.

(** A double is NaN when it differs from itself. *)
Definition es_NaN (x : float) : bool := negb (x =? x)%float.

(** Zero or a finite number: neither an infinity nor NaN. *)
Definition finito (x : float) : bool :=
  match Prim2SF x with
  | S754_zero _ | S754_finite _ _ _ => true
  | S754_infinity _ | S754_nan => false
  end.

(** The real number a finite double stands for: [(-1)^s m 2^e].  An
    infinity and NaN stand for no real number; they are given 0 here, and the
    statements on sample values are made for finite doubles. *)
Definition valor_sf (x : spec_float) : R :=
  match x with
  | S754_finite s m e => IZR (cond_Zopp s (Zpos m)) * powerRZ 2 e
  | _ => 0
  end.

Definition valor (x : float) : R := valor_sf (Prim2SF x).

(** The sign of a double that is not NaN. *)
Definition de_signo (s : bool) (x : spec_float) : Prop :=
  match x with
  | S754_zero s' | S754_infinity s' | S754_finite s' _ _ => s' = s
  | S754_nan => False
  end.

(** *** Data *)

Record Parametros : Type := mkParametros {
  masa : float;
  constante_resorte : float;
  constante_amortiguamiento : float;
  fuerza : string;
  tipo_ecuacion : string
}.

Record ControlSimulacion : Type := mkControl {
  step_time : float;
  stop_time : float;
  valor_inicial : float;
  velocidad_inicial : float
}.

Record ParametrosSalida : Type := mkParametrosSalida {
  entrada : Parametros;
  frecuencia_natural : float;
  coeficiente_amortiguamiento : float;
  tipo_amortiguamiento : string;
  beta : float;
  omega_0 : float
}.

Record Resultados : Type := mkResultados {
  tiempo : list R;
  posicion : list R;
  velocidad : list R;
  aceleracion : list R;
  parametros : ParametrosSalida;
  estadisticas : Estadisticas
}.

(** How a call of [simulateSystem] ends: it returns the object, it throws,
    or it never returns. *)
Inductive Salida : Type :=
| Retorna (r : Resultados)
| Lanza (msg : string)
| NoRetorna.

(** *** [simulateSystem] *)

Section Generator.

(** The most arguments a call takes, and the message of the [RangeError]
    thrown beyond. *)
Variable limite : nat.
Variable mensaje_rango : string.

Variable p : Parametros.
Variable c : ControlSimulacion.

Definition armonico_simple : bool :=
  includes (tipo_ecuacion p) "no_amortiguado"
  && negb (includes (tipo_ecuacion p) "forzado").

(** One sample at time [t]; the branch is chosen by the double [zeta]. *)
Definition muestra (omega zeta : float) (t : R) : R * R * R :=
  if armonico_simple then
    (* Simple harmonic motion *)
    let position :=
      valor (valor_inicial c) * cos (valor omega * t)
      + (valor (velocidad_inicial c) / valor omega) * sin (valor omega * t) in
    let velocity :=
      - valor (valor_inicial c) * valor omega * sin (valor omega * t)
      + valor (velocidad_inicial c) * cos (valor omega * t) in
    let acceleration :=
      - valor (valor_inicial c) * valor omega * valor omega * cos (valor omega * t)
      - valor (velocidad_inicial c) * valor omega * sin (valor omega * t) in
    (position, velocity, acceleration)
  else if (zeta <? 1)%float then
    (* Underdamped *)
    let omegaD := valor omega * sqrt (1 - valor zeta * valor zeta) in
    let A := valor (valor_inicial c) in
    let B := (valor (velocidad_inicial c) + valor zeta * valor omega * A) / omegaD in
    let envelope := exp (- valor zeta * valor omega * t) in
    let cosine := cos (omegaD * t) in
    let sine := sin (omegaD * t) in
    let position := envelope * (A * cosine + B * sine) in
    let velocity :=
      envelope * ((- valor zeta * valor omega * A + omegaD * B) * cosine
                  + (- omegaD * A - valor zeta * valor omega * B) * sine) in
    let acceleration :=
      - valor (constante_resorte p) / valor (masa p) * position
      - valor (constante_amortiguamiento p) / valor (masa p) * velocity in
    (position, velocity, acceleration)
  else
    (* Overdamped or critically damped (simplified) *)
    let position :=
      valor (valor_inicial c) * exp (- valor zeta * valor omega * t)
      * cos (valor omega * t) in
    let velocity :=
      valor (valor_inicial c) * exp (- valor zeta * valor omega * t)
      * (- valor zeta * valor omega * cos (valor omega * t)
         - valor omega * sin (valor omega * t)) in
    let acceleration :=
      - valor (constante_resorte p) / valor (masa p) * position
      - valor (constante_amortiguamiento p) / valor (masa p) * velocity in
    (position, velocity, acceleration).

(** The body of the loop for the counter [i]. *)
Definition paso (omega zeta dt : float) (i : Z) (pts : Puntos) : Puntos :=
  let t := valor (step_time c) + IZR i * valor dt in
  let '(position, velocity, acceleration) := muestra omega zeta t in
  {| timePoints := push (timePoints pts) t;
     positionPoints := push (positionPoints pts) position;
     velocityPoints := push (velocityPoints pts) velocity;
     accelerationPoints := push (accelerationPoints pts) acceleration |}.

(** [for (let i = 0; i <= steps; i++) { ... }], with [fuel] bounding the
    number of iterations. *)
Fixpoint for_loop (omega zeta dt : float) (steps : Entero)
         (fuel : nat) (i : Z) (pts : Puntos) : Puntos :=
  match fuel with
  | O => pts
  | S fuel' =>
      if menor_igual i steps
      then for_loop omega zeta dt steps fuel' (i + 1)%Z (paso omega zeta dt i pts)
      else pts
  end.

(** The loop has no end when [steps] is [Infinity], and from [2^53] on,
    where [i++] no longer changes the counter. *)
Definition sin_fin (steps : Entero) : bool :=
  match steps with
  | MasInfinito => true
  | Finito z => (9007199254740992 <=? z)%Z
  | MenosInfinito | NoNumero => false
  end.

(** The iterations of a loop that ends: [steps + 1], or none. *)
Definition vueltas (steps : Entero) : nat :=
  match steps with
  | Finito z => Z.to_nat (z + 1)
  | _ => O
  end.

(** [Math.max(...xs)] and [Math.min(...xs)] *)
Definition Math_max_spread (xs : list R) : string + number :=
  if (limite <? length xs)%nat then inl mensaje_rango else inr (Math_max xs).

Definition Math_min_spread (xs : list R) : string + number :=
  if (limite <? length xs)%nat then inl mensaje_rango else inr (Math_min xs).

(** Sequencing of evaluations that can throw. *)
Definition luego {A B : Type} (x : string + A) (k : A -> string + B) : string + B :=
  match x with
  | inl msg => inl msg
  | inr a => k a
  end.

(** The [estadisticas] object, its fields evaluated in order. *)
Definition estadisticas_de (pts : Puntos) : string + Estadisticas :=
  luego (Math_max_spread (positionPoints pts)) (fun pmax =>
  luego (Math_min_spread (positionPoints pts)) (fun pmin =>
  luego (Math_max_spread (positionPoints pts)) (fun amax =>
  luego (Math_min_spread (positionPoints pts)) (fun amin =>
  luego (Math_max_spread (velocityPoints pts)) (fun vmax =>
  luego (Math_min_spread (velocityPoints pts)) (fun vmin =>
  luego (Math_max_spread (accelerationPoints pts)) (fun cmax =>
  luego (Math_min_spread (accelerationPoints pts)) (fun cmin =>
  inr {| posicion_maxima := pmax;
         posicion_minima := pmin;
         amplitud := nsub amax amin;
         velocidad_maxima := vmax;
         velocidad_minima := vmin;
         aceleracion_maxima := cmax;
         aceleracion_minima := cmin |})))))))).

Definition simulateSystem : Salida :=
  let dt := 0.01%float in
  let totalTime := (stop_time c - step_time c)%float in
  let steps := Math_floor (totalTime / dt) in
  (* System parameters *)
  let omega := PrimFloat.sqrt (constante_resorte p / masa p) in
  let zeta :=
    (constante_amortiguamiento p
     / (2 * PrimFloat.sqrt (masa p * constante_resorte p)))%float in
  if sin_fin steps then NoRetorna
  else
    let pts :=
      for_loop omega zeta dt steps (vueltas steps) 0%Z puntos_vacios in
    match estadisticas_de pts with
    | inl msg => Lanza msg
    | inr est =>
        Retorna
          {| tiempo := timePoints pts;
             posicion := positionPoints pts;
             velocidad := velocityPoints pts;
             aceleracion := accelerationPoints pts;
             parametros :=
               {| entrada := p;
                  frecuencia_natural := omega;
                  coeficiente_amortiguamiento := zeta;
                  tipo_amortiguamiento :=
                    if (zeta <? 1)%float then "subamortiguado"
                    else if (zeta =? 1)%float then "crítico"
                    else "sobreamortiguado";
                  beta :=
                    (constante_amortiguamiento p / (2 * masa p))%float;
                  omega_0 := omega |};
             estadisticas := est |}
    end.

End Generator.

(** *** [ejecutarSimulacion] *)

Record Estado : Type := mkEstado {
  st_parametros : Parametros;
  st_control : ControlSimulacion;
  escalaGrafico : EscalaGrafico;
  resultados : option Resultados;
  loading : bool;
  error : string
}.

(** How a computation on the state cells ends: with a value, with an
    exception, or not at all; the first two keep the state reached. *)
Inductive Efecto (A : Type) : Type :=
| Valor (a : A) (st : Estado)
| Excepcion (msg : string) (st : Estado)
| Pendiente.

Arguments Valor {A} a st.
Arguments Excepcion {A} msg st.
Arguments Pendiente {A}.

Definition M (A : Type) : Type := Estado -> Efecto A.

Definition ret {A : Type} (a : A) : M A := fun st => Valor a st.

Definition bind {A B : Type} (m : M A) (k : A -> M B) : M B :=
  fun st =>
    match m st with
    | Valor a st' => k a st'
    | Excepcion msg st' => Excepcion msg st'
    | Pendiente => Pendiente
    end.

Definition throw {A : Type} (msg : string) : M A := fun st => Excepcion msg st.

(** A call of the generator from the handler. *)
Definition llamar (s : Salida) : M Resultados :=
  fun st =>
    match s with
    | Retorna r => Valor r st
    | Lanza msg => Excepcion msg st
    | NoRetorna => Pendiente
    end.

Definition finally (c last : M unit) : M unit :=
  fun st =>
    match c st with
    | Valor _ st' => last st'
    | Excepcion msg st' =>
        match last st' with
        | Valor _ st'' => Excepcion msg st''
        | otro => otro
        end
    | Pendiente => Pendiente
    end.

(** [try { body } catch (err) { handler(err.message) } finally { last }] *)
Definition try_catch_finally (body : M unit) (handler : string -> M unit)
           (last : M unit) : M unit :=
  finally
    (fun st =>
       match body st with
       | Excepcion msg st' => handler msg st'
       | otro => otro
       end)
    last.

Definition setLoading (b : bool) : M unit :=
  fun st => Valor tt (mkEstado (st_parametros st) (st_control st)
                        (escalaGrafico st) (resultados st) b (error st)).

Definition setError (msg : string) : M unit :=
  fun st => Valor tt (mkEstado (st_parametros st) (st_control st)
                        (escalaGrafico st) (resultados st) (loading st) msg).

Definition setResultados (r : option Resultados) : M unit :=
  fun st => Valor tt (mkEstado (st_parametros st) (st_control st)
                        (escalaGrafico st) r (loading st) (error st)).

Definition setEscalaGrafico (f : EscalaGrafico -> EscalaGrafico) : M unit :=
  fun st => Valor tt (mkEstado (st_parametros st) (st_control st)
                        (f (escalaGrafico st)) (resultados st)
                        (loading st) (error st)).

Definition setParametros (p : Parametros) : M unit :=
  fun st => Valor tt (mkEstado p (st_control st) (escalaGrafico st)
                        (resultados st) (loading st) (error st)).

Definition setControlSimulacion (f : ControlSimulacion -> ControlSimulacion) : M unit :=
  fun st => Valor tt (mkEstado (st_parametros st) (f (st_control st))
                        (escalaGrafico st) (resultados st) (loading st) (error st)).

(** The "Validate inputs" block, with the comparisons of doubles: NaN passes
    all three. *)
Definition validar (p : Parametros) : M unit :=
  bind (if (masa p <=? 0)%float
        then throw "La masa debe ser positiva" else ret tt) (fun _ =>
  bind (if (constante_resorte p <=? 0)%float
        then throw "La constante del resorte debe ser positiva" else ret tt) (fun _ =>
  if (constante_amortiguamiento p <? 0)%float
  then throw "La constante de amortiguamiento no puede ser negativa"
  else ret tt)).

Section Motor.

Variable limite : nat.
Variable mensaje_rango : string.

(** [ejecutarSimulacion], run in the render whose state cells are [snap].
    The one-second [await] is left out, as above.  The spreads of the
    auto-scale block are those of an array that [simulateSystem] has already
    spread, so they do not throw. *)
Definition ejecutarSimulacion (snap : Estado) : M unit :=
  bind (setLoading true) (fun _ =>
  bind (setError "") (fun _ =>
  try_catch_finally
    (bind (validar (st_parametros snap)) (fun _ =>
     bind (llamar (simulateSystem limite mensaje_rango
                     (st_parametros snap) (st_control snap))) (fun data =>
     bind (setResultados (Some data)) (fun _ =>
     (* Auto-scale graph if enabled *)
     if auto_escala (escalaGrafico snap)
     then setEscalaGrafico (autoEscala (posicion data))
     else ret tt))))
    (fun message => setError (o_bien message "Error en la simulación"))
    (setLoading false))).

(** A click on the button. *)
Definition ejecutar (st : Estado) : Efecto unit := ejecutarSimulacion st st.

End Motor.

(** *** [cargarEjemplo] *)

Record Ejemplo : Type := mkEjemplo {
  nombre : string;
  descripcion : string;
  ej_masa : float;
  ej_constante_resorte : float;
  ej_constante_amortiguamiento : float;
  ej_fuerza : string;
  ej_tipo_ecuacion : string;
  ej_valor_inicial : float;
  ej_velocidad_inicial : float
}.

Definition ejemplos : list Ejemplo :=
  [ mkEjemplo "Oscilación Simple"
              "Sistema masa-resorte básico sin amortiguamiento"
              1 4 0 "0" "no_amortiguado" 1 0;
    mkEjemplo "Amortiguamiento Crítico"
              "Sistema con amortiguamiento crítico"
              1 4 4 "0" "amortiguado" 1 0;
    mkEjemplo "Fuerza Senoidal"
              "Sistema forzado con entrada senoidal"
              1 4 0.5 "sin(2*t)" "amortiguado_forzado" 0 0 ].

Definition cargarEjemplo (ejemplo : Ejemplo) : M unit :=
  bind (setParametros
          {| masa := ej_masa ejemplo;
             constante_resorte := ej_constante_resorte ejemplo;
             constante_amortiguamiento := ej_constante_amortiguamiento ejemplo;
             fuerza := ej_fuerza ejemplo;
             tipo_ecuacion := ej_tipo_ecuacion ejemplo |}) (fun _ =>
  bind (setControlSimulacion
          (fun prev => {| step_time := step_time prev;
                          stop_time := stop_time prev;
                          valor_inicial := ej_valor_inicial ejemplo;
                          velocidad_inicial := ej_velocidad_inicial ejemplo |})) (fun _ =>
  setResultados None)).

(** *** Vocabulary of the statements *)

(** [steps], [omega] and [zeta] as [simulateSystem] computes them. *)
Definition pasos (c : ControlSimulacion) : Entero :=
  Math_floor ((stop_time c - step_time c) / 0.01)%float.

Definition omega (p : Parametros) : float :=
  PrimFloat.sqrt (constante_resorte p / masa p).

Definition zeta (p : Parametros) : float :=
  (constante_amortiguamiento p
   / (2 * PrimFloat.sqrt (masa p * constante_resorte p)))%float.

(** The sampling instant of index [i]. *)
Definition instante (c : ControlSimulacion) (i : nat) : R :=
  valor (step_time c) + INR i * valor 0.01%float.

(** The inputs the form accepts: [m > 0], [k > 0], [b >= 0]. *)
Definition validos (p : Parametros) : Prop :=
  (0 <? masa p)%float = true
  /\ (0 <? constante_resorte p)%float = true
  /\ (0 <=? constante_amortiguamiento p)%float = true.

(** The doubles the closed forms read are finite. *)
Definition finitos (p : Parametros) (c : ControlSimulacion) : bool :=
  finito (masa p) && finito (constante_resorte p)
  && finito (constante_amortiguamiento p)
  && finito (omega p) && finito (zeta p)
  && finito (step_time c) && finito (valor_inicial c)
  && finito (velocidad_inicial c).

Definition con_velocidad_inicial (v : float) (c : ControlSimulacion) : ControlSimulacion :=
  mkControl (step_time c) (stop_time c) (valor_inicial c) v.

(** *** Inputs of the examples *)

(** The initial values of the form, the second example of the library, a
    window of 2000 seconds, and an engine that takes 125000 arguments. *)
Definition control_inicial : ControlSimulacion := mkControl 0 10 1 0.

Definition parametros_iniciales : Parametros :=
  mkParametros 1 4 0.2 "0" "amortiguado".

Definition amortiguamiento_critico : Parametros :=
  mkParametros 1 4 4 "0" "amortiguado".


Definition limite_ejemplo : nat := Z.to_nat 125000.

Definition mensaje_ejemplo : string := "Maximum call stack size exceeded".


Definition estado_masa_nula : Estado :=
  mkEstado (mkParametros 0 4 0.2 "0" "amortiguado") control_inicial
           (mkEscala (Num (-2)) (Num 2) true) None false "".


(** A damping constant that is the double nearest to [2 sqrt 2], and a mass
    and a spring constant whose product underflows. *)
Definition casi_critico : Parametros :=
  mkParametros 1 2 2.8284271247461903 "0" "amortiguado".

Definition diminuto : Parametros :=
  mkParametros 1e-200 1e-200 0 "0" "amortiguado".

End B64.

(** ** Runs of the animation from any state *)

(** The frames of the animation [a] fit the trajectory [r]: the selector is
    at one of its speeds, and the frame of the component and the frame last
    reported to the chart are in [0, length). *)
Definition en_rango (r : Resultados) (a : Animacion) : Prop :=
  In (animationSpeed a) velocidades
  /\ 0 <= currentFrame a < INR (length (posicion r))
  /\ 0 <= currentAnimationFrame a < INR (length (posicion r)).

(** Any number of ticks and controls, one after the other. *)
Inductive pasos_animacion (vs : list R) (r : Resultados) :
  Animacion -> Animacion -> Prop :=
| pasos_ninguno : forall a, pasos_animacion vs r a a
| pasos_uno_mas : forall a a' a'',
    pasos_animacion vs r a a' -> paso_animacion vs r a' a'' ->
    pasos_animacion vs r a a''.

(** * Properties *)

(** ** The loop of [simulateSystem] *)

Lemma indices_length (n : nat) : forall i, length (indices i n) = n.
Proof. induction n as [|n IH]; intros i; simpl; [reflexivity | now rewrite IH]. Qed.

Lemma indices_nth (n : nat) :
  forall i k, (k < n)%nat -> nth_error (indices i n) k = Some (i + Z.of_nat k)%Z.
Proof.
  induction n as [|n IH]; intros i k Hk; [lia|].
  destruct k as [|k]; simpl.
  - f_equal; lia.
  - rewrite IH by lia. f_equal; lia.
Qed.

Section Loop.

Variable p : Parametros.
Variable c : ControlSimulacion.
Variables omega zeta dt : R.
Variable steps : Z.

Let t_de (j : Z) : R := step_time c + IZR j * dt.

(** With exactly the iterations left as fuel, the loop is the fold of its
    body over the counter values. *)
Lemma for_loop_fold (fuel : nat) :
  forall i pts,
    fuel = Z.to_nat (steps + 1 - i) ->
    for_loop p c omega zeta dt steps fuel i pts
    = fold_left (fun acc j => paso p c omega zeta dt j acc) (indices i fuel) pts.
Proof.
  induction fuel as [|fuel IH]; intros i pts Hf; simpl; [reflexivity|].
  destruct (Z.leb_spec i steps) as [Hle|Hgt]; [|lia].
  apply IH. lia.
Qed.


Lemma fold_paso (js : list Z) :
  forall pts,
    let r := fold_left (fun acc j => paso p c omega zeta dt j acc) js pts in
    timePoints r = timePoints pts ++ map t_de js
    /\ positionPoints r
       = positionPoints pts ++ map (fun j => fst (fst (muestra p c omega zeta (t_de j)))) js
    /\ velocityPoints r
       = velocityPoints pts ++ map (fun j => snd (fst (muestra p c omega zeta (t_de j)))) js
    /\ accelerationPoints r
       = accelerationPoints pts ++ map (fun j => snd (muestra p c omega zeta (t_de j))) js.
Proof.
  induction js as [|j js IH]; intros pts; simpl.
  - now rewrite !app_nil_r.
  - destruct (IH (paso p c omega zeta dt j pts)) as (Ht & Hp & Hv & Ha).
    rewrite Ht, Hp, Hv, Ha. unfold paso, push. fold (t_de j).
    destruct (muestra p c omega zeta (t_de j)) as [[x v] a]. simpl.
    now rewrite <- !app_assoc.
Qed.

End Loop.

(** ** Shape of the generated arrays *)

Lemma Math_floor_nonneg (x : R) : 0 <= x -> (0 <= Math_floor x)%Z.
Proof.
  intros Hx. unfold Math_floor.
  destruct (base_Int_part x) as [_ Hlow].
  assert (Hgt : IZR (-1) < IZR (Int_part x)) by lra.
  apply lt_IZR in Hgt. lia.
Qed.

Lemma Math_floor_IZR (z : Z) : Math_floor (IZR z) = z.
Proof.
  unfold Math_floor.
  destruct (base_Int_part (IZR z)) as [Hup Hlow].
  assert (H1 : (Int_part (IZR z) <= z)%Z) by now apply le_IZR.
  assert (H2 : IZR (z - 1) < IZR (Int_part (IZR z))) by (rewrite minus_IZR; lra).
  apply lt_IZR in H2. lia.
Qed.

Lemma muestras_pos (c : ControlSimulacion) :
  step_time c < stop_time c -> (1 <= muestras c)%nat.
Proof.
  intros Hc. unfold muestras.
  assert (0 <= Math_floor ((stop_time c - step_time c) / 0.01))%Z; [|lia].
  apply Math_floor_nonneg.
  apply Rmult_le_pos; [lra|]. apply Rlt_le, Rinv_0_lt_compat. lra.
Qed.

(** The four arrays of the result, as maps over the counter values. *)
Lemma simulateSystem_arrays (p : Parametros) (c : ControlSimulacion) :
  let r := simulateSystem p c in
  let t_de := fun j : Z => step_time c + IZR j * 0.01 in
  let m := fun j : Z => muestra p c (omega0 p) (razon_amortiguamiento p) (t_de j) in
  tiempo r = map t_de (indices 0 (muestras c))
  /\ posicion r = map (fun j => fst (fst (m j))) (indices 0 (muestras c))
  /\ velocidad r = map (fun j => snd (fst (m j))) (indices 0 (muestras c))
  /\ aceleracion r = map (fun j => snd (m j)) (indices 0 (muestras c)).
Proof.
  cbv zeta. unfold simulateSystem. cbv zeta. cbn [tiempo posicion velocidad aceleracion].
  fold (omega0 p) (razon_amortiguamiento p) (muestras c).
  rewrite for_loop_fold by (unfold muestras; f_equal; lia).
  exact (fold_paso p c (omega0 p) (razon_amortiguamiento p) 0.01
                  (indices 0 (muestras c)) puntos_vacios).
Qed.

Lemma simulateSystem_length (p : Parametros) (c : ControlSimulacion) :
  let r := simulateSystem p c in
  length (tiempo r) = muestras c
  /\ length (posicion r) = muestras c
  /\ length (velocidad r) = muestras c
  /\ length (aceleracion r) = muestras c.
Proof.
  cbv zeta. destruct (simulateSystem_arrays p c) as (Ht & Hp & Hv & Ha).
  rewrite Ht, Hp, Hv, Ha. now rewrite !length_map, indices_length.
Qed.

(** Every sample: the instant and the value of [muestra] there. *)
Lemma simulateSystem_nth (p : Parametros) (c : ControlSimulacion) (i : nat) :
  (i < muestras c)%nat ->
  let r := simulateSystem p c in
  let m := muestra p c (omega0 p) (razon_amortiguamiento p) (instante c i) in
  nth_error (tiempo r) i = Some (instante c i)
  /\ nth_error (posicion r) i = Some (fst (fst m))
  /\ nth_error (velocidad r) i = Some (snd (fst m))
  /\ nth_error (aceleracion r) i = Some (snd m).
Proof.
  intros Hi. cbv zeta.
  destruct (simulateSystem_arrays p c) as (Ht & Hp & Hv & Ha).
  rewrite Ht, Hp, Hv, Ha.
  rewrite !nth_error_map, (indices_nth _ 0 i Hi). cbn [option_map].
  unfold instante. rewrite INR_IZR_INZ. replace (0 + Z.of_nat i)%Z with (Z.of_nat i) by lia.
  repeat split; reflexivity.
Qed.

(** ** The three branches of a sample *)

Section Ramas.

Variable p : Parametros.
Variable c : ControlSimulacion.
Variables omega zeta t : R.

Lemma muestra_armonico :
  armonico_simple p = true ->
  muestra p c omega zeta t
  = (valor_inicial c * cos (omega * t)
       + (velocidad_inicial c / omega) * sin (omega * t),
     - valor_inicial c * omega * sin (omega * t)
       + velocidad_inicial c * cos (omega * t),
     - valor_inicial c * omega * omega * cos (omega * t)
       - velocidad_inicial c * omega * sin (omega * t)).
Proof. intros H. unfold muestra. now rewrite H. Qed.


Lemma muestra_sobreamortiguado :
  armonico_simple p = false -> 1 <= zeta ->
  let position := valor_inicial c * exp (- zeta * omega * t) * cos (omega * t) in
  let velocity :=
    valor_inicial c * exp (- zeta * omega * t)
    * (- zeta * omega * cos (omega * t) - omega * sin (omega * t)) in
  muestra p c omega zeta t
  = (position, velocity,
     - constante_resorte p / masa p * position
     - constante_amortiguamiento p / masa p * velocity).
Proof.
  intros H Hz. unfold muestra. rewrite H.
  destruct (Rlt_dec zeta 1) as [Hlt|_]; [lra | reflexivity].
Qed.

End Ramas.

(** ** Derived quantities of the worked examples *)

Lemma sqrt_4 : sqrt 4 = 2.
Proof. replace 4 with (2 * 2) by lra. apply sqrt_square. lra. Qed.

Lemma omega0_4_1 (p : Parametros) :
  masa p = 1 -> constante_resorte p = 4 -> omega0 p = 2.
Proof.
  intros Hm Hk. unfold omega0. rewrite Hm, Hk.
  replace (4 / 1) with 4 by lra. exact sqrt_4.
Qed.

Lemma razon_4_1 (p : Parametros) :
  masa p = 1 -> constante_resorte p = 4 ->
  razon_amortiguamiento p = constante_amortiguamiento p / 4.
Proof.
  intros Hm Hk. unfold razon_amortiguamiento. rewrite Hm, Hk.
  replace (1 * 4) with 4 by lra. rewrite sqrt_4. lra.
Qed.

(** ** Derivatives of the closed forms *)

Lemma derivable_pt_lim_valor (f : R -> R) (x l l' : R) :
  derivable_pt_lim f x l -> l = l' -> derivable_pt_lim f x l'.
Proof. intros H <-. exact H. Qed.

Lemma derivada_lineal (a x : R) : derivable_pt_lim (fun t => a * t) x a.
Proof.
  apply (derivable_pt_lim_valor _ _ (a * 1)); [|ring].
  exact (derivable_pt_lim_scal id a x 1 (derivable_pt_lim_id x)).
Qed.

Lemma derivada_exp_lineal (a x : R) :
  derivable_pt_lim (fun t => exp (a * t)) x (a * exp (a * x)).
Proof.
  apply (derivable_pt_lim_valor _ _ (exp (a * x) * a)); [|ring].
  exact (derivable_pt_lim_comp (fun t => a * t) exp x a (exp (a * x))
           (derivada_lineal a x) (derivable_pt_lim_exp (a * x))).
Qed.

Lemma derivada_cos_lineal (w x : R) :
  derivable_pt_lim (fun t => cos (w * t)) x (- w * sin (w * x)).
Proof.
  apply (derivable_pt_lim_valor _ _ (- sin (w * x) * w)); [|ring].
  exact (derivable_pt_lim_comp (fun t => w * t) cos x w (- sin (w * x))
           (derivada_lineal w x) (derivable_pt_lim_cos (w * x))).
Qed.

Lemma derivada_sin_lineal (w x : R) :
  derivable_pt_lim (fun t => sin (w * t)) x (w * cos (w * x)).
Proof.
  apply (derivable_pt_lim_valor _ _ (cos (w * x) * w)); [|ring].
  exact (derivable_pt_lim_comp (fun t => w * t) sin x w (cos (w * x))
           (derivada_lineal w x) (derivable_pt_lim_sin (w * x))).
Qed.

(** d/dt [ e^(a t) (A cos(w t) + B sin(w t)) ] *)
Lemma derivada_oscilacion_amortiguada (a w A B x : R) :
  derivable_pt_lim
    (fun t => exp (a * t) * (A * cos (w * t) + B * sin (w * t))) x
    (exp (a * x) * ((a * A + w * B) * cos (w * x) + (- w * A + a * B) * sin (w * x))).
Proof.
  pose proof (derivable_pt_lim_scal _ A x _ (derivada_cos_lineal w x)) as Hc.
  pose proof (derivable_pt_lim_scal _ B x _ (derivada_sin_lineal w x)) as Hs.
  pose proof (derivable_pt_lim_plus _ _ x _ _ Hc Hs) as Hsum.
  pose proof (derivable_pt_lim_mult _ _ x _ _ (derivada_exp_lineal a x) Hsum) as H.
  apply (derivable_pt_lim_valor _ _ _ _ H).
  unfold plus_fct, mult_real_fct. ring.
Qed.

(** ** Undamped, unforced motion *)

(** C1. For valid parameters, a window with [t_stop > t_start] and the
    equation kind 'no_amortiguado', every sample [i] of the trajectory is the
    simple harmonic motion at [t_i = t_start + i * 0.01]:
    position [y0 cos(w0 t_i) + (v0/w0) sin(w0 t_i)], velocity
    [-y0 w0 sin(w0 t_i) + v0 cos(w0 t_i)] and acceleration
    [-y0 w0^2 cos(w0 t_i) - v0 w0 sin(w0 t_i)], with [w0 = sqrt(k/m)].  When
    [t_start = 0] the first position is [y0] and the first velocity is [v0];
    for [m = 1], [k = 4], [b = 0], [y0 = 1], [v0 = 0] the position samples
    are [cos(2 t_i)]. *)
Theorem simulateSystem_no_amortiguado (p : Parametros) (c : ControlSimulacion) :
  parametros_validos p ->
  step_time c < stop_time c ->
  tipo_ecuacion p = "no_amortiguado"%string ->
  let r := simulateSystem p c in
  let w0 := sqrt (constante_resorte p / masa p) in
  let y0 := valor_inicial c in
  let v0 := velocidad_inicial c in
  (forall i, (i < length (posicion r))%nat ->
     let t := instante c i in
     nth_error (posicion r) i = Some (y0 * cos (w0 * t) + (v0 / w0) * sin (w0 * t))
     /\ nth_error (velocidad r) i = Some (- y0 * w0 * sin (w0 * t) + v0 * cos (w0 * t))
     /\ nth_error (aceleracion r) i
        = Some (- y0 * w0 ^ 2 * cos (w0 * t) - v0 * w0 * sin (w0 * t)))
  /\ (step_time c = 0 ->
      nth_error (posicion r) 0 = Some y0 /\ nth_error (velocidad r) 0 = Some v0)
  /\ (masa p = 1 -> constante_resorte p = 4 -> constante_amortiguamiento p = 0 ->
      y0 = 1 -> v0 = 0 ->
      forall i, (i < length (posicion r))%nat ->
        nth_error (posicion r) i = Some (cos (2 * instante c i))).
Proof.
  intros _ Hc Hk. cbv zeta.
  assert (Hshm : armonico_simple p = true) by (unfold armonico_simple; now rewrite Hk).
  destruct (simulateSystem_length p c) as (_ & Hlen & _). rewrite Hlen.
  assert (Hall : forall i, (i < muestras c)%nat ->
            nth_error (posicion (simulateSystem p c)) i
            = Some (valor_inicial c * cos (omega0 p * instante c i)
                    + velocidad_inicial c / omega0 p * sin (omega0 p * instante c i))
            /\ nth_error (velocidad (simulateSystem p c)) i
               = Some (- valor_inicial c * omega0 p * sin (omega0 p * instante c i)
                       + velocidad_inicial c * cos (omega0 p * instante c i))
            /\ nth_error (aceleracion (simulateSystem p c)) i
               = Some (- valor_inicial c * omega0 p ^ 2 * cos (omega0 p * instante c i)
                       - velocidad_inicial c * omega0 p * sin (omega0 p * instante c i))).
  { intros i Hi.
    destruct (simulateSystem_nth p c i Hi) as (_ & Hp & Hv & Ha).
    rewrite Hp, Hv, Ha, muestra_armonico by exact Hshm. cbn [fst snd].
    repeat split. f_equal. ring. }
  fold (omega0 p). split; [exact Hall | split].
  - intros Ht0.
    destruct (Hall O (muestras_pos c Hc)) as (Hp & Hv & _).
    rewrite Hp, Hv. unfold instante. rewrite Ht0. cbn [INR].
    replace (omega0 p * (0 + 0 * 0.01)) with 0 by ring.
    rewrite cos_0, sin_0. split; f_equal; ring.
  - intros Hm Hk4 _ Hy Hv i Hi.
    destruct (Hall i Hi) as (Hp & _). rewrite Hp, Hy, Hv.
    rewrite (omega0_4_1 p Hm Hk4). f_equal. unfold Rdiv. ring.
Qed.

Lemma simulateSystem_no_amortiguado_witness :
  parametros_validos oscilacion_simple
  /\ step_time control_inicial < stop_time control_inicial
  /\ nth_error (posicion (simulateSystem oscilacion_simple control_inicial)) 0
     = Some (cos (2 * instante control_inicial 0)).
Proof.
  assert (Hv : parametros_validos oscilacion_simple)
    by (unfold parametros_validos; simpl; lra).
  assert (Hc : step_time control_inicial < stop_time control_inicial)
    by (simpl; lra).
  split; [exact Hv | split; [exact Hc |]].
  destruct (simulateSystem_no_amortiguado oscilacion_simple control_inicial
              Hv Hc eq_refl) as (_ & _ & Hcos).
  apply Hcos; try reflexivity.
  destruct (simulateSystem_length oscilacion_simple control_inicial) as (_ & Hlen & _).
  rewrite Hlen. exact (muestras_pos control_inicial Hc).
Defined.

(** ** Underdamped motion *)


Lemma razon_parametros_iniciales :
  constante_amortiguamiento parametros_iniciales
  / (2 * sqrt (masa parametros_iniciales * constante_resorte parametros_iniciales)) < 1.
Proof.
  change (razon_amortiguamiento parametros_iniciales < 1).
  rewrite razon_4_1 by reflexivity. simpl. lra.
Defined.


(** ** Critically damped and overdamped motion *)

(** d/dt [ A e^(a t) cos(w t) ] *)
Lemma derivada_forma_simplificada (a w A x : R) :
  derivable_pt_lim (fun t => A * exp (a * t) * cos (w * t)) x
                   (A * exp (a * x) * (a * cos (w * x) - w * sin (w * x))).
Proof.
  pose proof (derivable_pt_lim_scal _ A x _ (derivada_exp_lineal a x)) as He.
  pose proof (derivable_pt_lim_mult _ _ x _ _ He (derivada_cos_lineal w x)) as H.
  apply (derivable_pt_lim_valor _ _ _ _ H).
  unfold mult_real_fct. ring.
Qed.

Lemma razon_amortiguamiento_critico :
  1 <= constante_amortiguamiento amortiguamiento_critico
       / (2 * sqrt (masa amortiguamiento_critico
                    * constante_resorte amortiguamiento_critico)).
Proof.
  change (1 <= razon_amortiguamiento amortiguamiento_critico).
  rewrite razon_4_1 by reflexivity. simpl. lra.
Defined.

(** ** The forcing expression *)

(** C6. The numeric outputs do not depend on the forcing expression: two
    runs of the generator that differ only in [fuerza] return the same
    tiempo, posicion, velocidad and aceleracion and the same estadisticas
    (all seven fields).  No validity assumption is needed. *)
Theorem simulateSystem_fuerza_inerte (p : Parametros) (c : ControlSimulacion)
        (f1 f2 : string) :
  let r1 := simulateSystem (con_fuerza f1 p) c in
  let r2 := simulateSystem (con_fuerza f2 p) c in
  tiempo r1 = tiempo r2
  /\ posicion r1 = posicion r2
  /\ velocidad r1 = velocidad r2
  /\ aceleracion r1 = aceleracion r2
  /\ estadisticas r1 = estadisticas r2.
Proof.
  cbv zeta. repeat split; reflexivity.
Qed.

(** ** Validation in [ejecutarSimulacion] *)

(** The three outcomes of the validation block. *)
Lemma validar_valido (p : Parametros) (st : Estado) :
  parametros_validos p -> validar p st = (inr tt, st).
Proof.
  intros (Hm & Hk & Hb). unfold validar, bind, ret, throw.
  destruct (Rle_dec (masa p) 0); [lra |].
  destruct (Rle_dec (constante_resorte p) 0); [lra |].
  destruct (Rlt_dec (constante_amortiguamiento p) 0); [lra | reflexivity].
Qed.

Lemma validar_invalido (p : Parametros) (st : Estado) :
  masa p <= 0 \/ constante_resorte p <= 0 \/ constante_amortiguamiento p < 0 ->
  exists msg,
    validar p st = (inl msg, st)
    /\ In msg ["La masa debe ser positiva";
               "La constante del resorte debe ser positiva";
               "La constante de amortiguamiento no puede ser negativa"]%string.
Proof.
  intros H. unfold validar, bind, ret, throw.
  destruct (Rle_dec (masa p) 0).
  { eexists; split; [reflexivity | simpl; auto]. }
  destruct (Rle_dec (constante_resorte p) 0).
  { eexists; split; [reflexivity | simpl; auto]. }
  destruct (Rlt_dec (constante_amortiguamiento p) 0).
  { eexists; split; [reflexivity | simpl; auto]. }
  lra.
Qed.

(** The state after a request with valid parameters. *)
Lemma ejecutar_valido (st : Estado) :
  parametros_validos (st_parametros st) ->
  let data := simulateSystem (st_parametros st) (st_control st) in
  ejecutar st
  = mkEstado (st_parametros st) (st_control st)
             (if auto_escala (escalaGrafico st)
              then autoEscala (posicion data) (escalaGrafico st)
              else escalaGrafico st)
             (Some data) false "".
Proof.
  intros Hv. cbv zeta.
  unfold ejecutar, ejecutarSimulacion, try_catch_finally, finally, bind,
    setLoading, setError.
  cbn [snd]. rewrite (validar_valido _ _ Hv).
  unfold setResultados, setEscalaGrafico, ret.
  destruct (auto_escala (escalaGrafico st)); reflexivity.
Qed.

(** The state after a request with a rejected parameter. *)
Lemma ejecutar_invalido (st : Estado) :
  masa (st_parametros st) <= 0
  \/ constante_resorte (st_parametros st) <= 0
  \/ constante_amortiguamiento (st_parametros st) < 0 ->
  exists msg,
    ejecutar st
    = mkEstado (st_parametros st) (st_control st) (escalaGrafico st)
               (resultados st) false msg
    /\ In msg ["La masa debe ser positiva";
               "La constante del resorte debe ser positiva";
               "La constante de amortiguamiento no puede ser negativa"]%string.
Proof.
  intros H.
  unfold ejecutar, ejecutarSimulacion, try_catch_finally, finally, bind,
    setLoading, setError.
  cbn [snd].
  match goal with
  | |- context [validar ?q ?s] =>
      destruct (validar_invalido q s H) as (msg & Hval & Hin); rewrite Hval
  end.
  exists msg. split; [| exact Hin].
  simpl in Hin.
  destruct Hin as [<-|[<-|[<-|[]]]]; reflexivity.
Qed.

(** ** Auto-scaling of the chart *)

Lemma Math_max_constante (xs : list R) (k : R) :
  xs <> [] -> (forall x, In x xs -> x = k) -> Math_max xs = Num k.
Proof.
  induction xs as [|x xs IH]; intros Hne Hall; [contradiction |].
  cbn [Math_max]. rewrite (Hall x (or_introl eq_refl)).
  destruct xs as [|y ys]; [reflexivity |].
  rewrite IH; [| discriminate | intros z Hz; apply Hall; now right].
  f_equal. apply Rmax_left. lra.
Qed.

Lemma Math_min_constante (xs : list R) (k : R) :
  xs <> [] -> (forall x, In x xs -> x = k) -> Math_min xs = Num k.
Proof.
  induction xs as [|x xs IH]; intros Hne Hall; [contradiction |].
  cbn [Math_min]. rewrite (Hall x (or_introl eq_refl)).
  destruct xs as [|y ys]; [reflexivity |].
  rewrite IH; [| discriminate | intros z Hz; apply Hall; now right].
  f_equal. apply Rmin_left. lra.
Qed.

(** When the extremes coincide they are one finite value. *)
Lemma Math_max_min_iguales (xs : list R) :
  Math_max xs = Math_min xs -> exists k, Math_max xs = Num k /\ Math_min xs = Num k.
Proof.
  destruct xs as [|x xs]; cbn [Math_max Math_min]; [discriminate |].
  intros H. destruct (Math_max xs), (Math_min xs); eexists; split; try reflexivity;
    now rewrite <- H.
Qed.

(** On a constant series the auto-scaled range is the constant itself. *)
Lemma autoEscala_constante (posiciones : list R) (prev : EscalaGrafico) :
  Math_max posiciones = Math_min posiciones ->
  y_min (autoEscala posiciones prev) = Math_min posiciones
  /\ y_max (autoEscala posiciones prev) = Math_max posiciones.
Proof.
  intros H. destruct (Math_max_min_iguales posiciones H) as (k & Hmax & Hmin).
  unfold autoEscala. cbv zeta. cbn [y_min y_max]. rewrite Hmax, Hmin.
  cbn [nsub nopp nadd nmul]. split; f_equal; ring.
Qed.

(** A series generated from [y0 = 0] in the last branch is zero throughout. *)
Lemma posicion_nula (p : Parametros) (c : ControlSimulacion) :
  armonico_simple p = false ->
  1 <= razon_amortiguamiento p ->
  valor_inicial c = 0 ->
  forall x, In x (posicion (simulateSystem p c)) -> x = 0.
Proof.
  intros Hshm Hz Hy x Hx.
  destruct (simulateSystem_arrays p c) as (_ & Hp & _).
  rewrite Hp in Hx. apply in_map_iff in Hx. destruct Hx as (j & <- & _).
  rewrite (muestra_sobreamortiguado p c _ _ _ Hshm Hz). cbn [fst].
  rewrite Hy. ring.
Qed.

Lemma posicion_no_vacia (p : Parametros) (c : ControlSimulacion) :
  step_time c < stop_time c -> posicion (simulateSystem p c) <> [].
Proof.
  intros Hc Hnil.
  destruct (simulateSystem_length p c) as (_ & Hlen & _).
  pose proof (muestras_pos c Hc) as Hpos.
  rewrite Hnil in Hlen. simpl in Hlen. lia.
Qed.

Lemma estado_reposo_valido : parametros_validos (st_parametros estado_reposo).
Proof. unfold parametros_validos; simpl; lra. Qed.

Lemma posicion_reposo_constante :
  Math_max (posicion (simulateSystem amortiguamiento_critico control_reposo)) = Num 0
  /\ Math_min (posicion (simulateSystem amortiguamiento_critico control_reposo)) = Num 0.
Proof.
  assert (Hne : posicion (simulateSystem amortiguamiento_critico control_reposo) <> [])
    by (apply posicion_no_vacia; simpl; lra).
  assert (Hall : forall x,
            In x (posicion (simulateSystem amortiguamiento_critico control_reposo)) -> x = 0).
  { apply posicion_nula; [reflexivity | | reflexivity].
    exact razon_amortiguamiento_critico. }
  split; [now apply Math_max_constante | now apply Math_min_constante].
Qed.

(** C8, as the code has it.  When auto-scaling is enabled and the computed
    position series is constant ([max(posicion) = min(posicion)]), the
    auto-scaled range gets no margin: [y_min] and [y_max] are both the
    constant position value, so [y_min < y_max] does not hold. *)
Theorem autoEscala_serie_constante (st : Estado) :
  parametros_validos (st_parametros st) ->
  auto_escala (escalaGrafico st) = true ->
  let posiciones := posicion (simulateSystem (st_parametros st) (st_control st)) in
  Math_max posiciones = Math_min posiciones ->
  let e := escalaGrafico (ejecutar st) in
  y_min e = Math_min posiciones
  /\ y_max e = Math_max posiciones
  /\ y_min e = y_max e.
Proof.
  intros Hv Hauto. cbv zeta. intros Hconst.
  rewrite (ejecutar_valido st Hv). cbn [escalaGrafico]. rewrite Hauto.
  destruct (autoEscala_constante _ (escalaGrafico st) Hconst) as (Hmin & Hmax).
  rewrite Hmin, Hmax. repeat split. now symmetry.
Qed.

Lemma autoEscala_serie_constante_witness :
  parametros_validos (st_parametros estado_reposo)
  /\ auto_escala (escalaGrafico estado_reposo) = true
  /\ y_min (escalaGrafico (ejecutar estado_reposo)) = Num 0
  /\ y_max (escalaGrafico (ejecutar estado_reposo)) = Num 0.
Proof.
  destruct posicion_reposo_constante as (Hmax & Hmin).
  split; [exact estado_reposo_valido | split; [reflexivity |]].
  destruct (autoEscala_serie_constante estado_reposo estado_reposo_valido eq_refl
              (eq_trans Hmax (eq_sym Hmin))) as (H1 & H2 & _).
  split; [exact (eq_trans H1 Hmin) | exact (eq_trans H2 Hmax)].
Defined.

(** The claim of a visible margin fails on the mass at rest: auto-scaling is
    on, the series is constant, and [y_min < y_max] is false after the
    request. *)
Lemma autoEscala_sin_margen :
  auto_escala (escalaGrafico estado_reposo) = true
  /\ Math_max (posicion (simulateSystem amortiguamiento_critico control_reposo))
     = Math_min (posicion (simulateSystem amortiguamiento_critico control_reposo))
  /\ ~ nlt (y_min (escalaGrafico (ejecutar estado_reposo)))
           (y_max (escalaGrafico (ejecutar estado_reposo))).
Proof.
  destruct posicion_reposo_constante as (Hmax & Hmin).
  assert (Hconst :
    Math_max (posicion (simulateSystem amortiguamiento_critico control_reposo))
    = Math_min (posicion (simulateSystem amortiguamiento_critico control_reposo)))
    by (now rewrite Hmax, Hmin).
  split; [reflexivity | split; [exact Hconst |]].
  rewrite (ejecutar_valido estado_reposo estado_reposo_valido).
  cbn [escalaGrafico estado_reposo auto_escala st_parametros st_control].
  destruct (autoEscala_constante _ (mkEscala (Num (-2)) (Num 2) true) Hconst) as (H1 & H2).
  rewrite H1, H2, Hmax, Hmin. cbn [nlt]. lra.
Qed.

(** ** The frame-advance step of the animation *)

Lemma velocidades_positivas (s : R) : In s velocidades -> 0 < s.
Proof.
  unfold velocidades. simpl.
  intros [<-|[<-|[<-|[<-|[<-|[]]]]]]; lra.
Qed.

(** The tick in its two cases. *)
Lemma animate_fin (r : Resultados) (a : Animacion) :
  currentFrame a + animationSpeed a >= INR (length (posicion r)) ->
  animate r a
  = mkAnimacion (INR (length (posicion r)) - 1) (animationSpeed a)
                (negb (isPlaying a)) (currentAnimationFrame a).
Proof.
  intros H. unfold animate. cbv zeta.
  destruct (Rge_dec _ _) as [_|Hn]; [reflexivity | contradiction].
Qed.

Lemma animate_avanza (r : Resultados) (a : Animacion) :
  currentFrame a + animationSpeed a < INR (length (posicion r)) ->
  animate r a
  = mkAnimacion (currentFrame a + animationSpeed a) (animationSpeed a)
                (isPlaying a) (currentFrame a + animationSpeed a).
Proof.
  intros H. unfold animate. cbv zeta.
  destruct (Rge_dec _ _) as [Hge|_]; [lra | reflexivity].
Qed.

(** In every reachable state the speed is positive and the frame value lies
    in [0, length). *)
Lemma alcanzable_invariante (vs : list R) (r : Resultados) :
  (forall s, In s vs -> 0 < s) ->
  (1 <= length (posicion r))%nat ->
  forall a, alcanzable_con vs r a ->
    0 < animationSpeed a
    /\ 0 <= currentFrame a < INR (length (posicion r)).
Proof.
  intros Hvs Hlen.
  assert (Hl : 1 <= INR (length (posicion r))) by (apply (le_INR 1); exact Hlen).
  induction 1 as [|a a' Ha IH Hstep].
  - simpl. lra.
  - destruct IH as (Hs & Hf0 & Hf1).
    destruct Hstep as [a Hplay | a | a | a s Hin]; cbn.
    + destruct (Rlt_le_dec (currentFrame a + animationSpeed a)
                           (INR (length (posicion r)))) as [Hlt|Hge].
      * rewrite (animate_avanza r a Hlt). cbn. lra.
      * rewrite (animate_fin r a (Rle_ge _ _ Hge)). cbn. lra.
    + lra.
    + lra.
    + pose proof (Hvs s Hin). lra.
Qed.

(** While playing and short of the end, [n] ticks add [n] times the speed. *)
Lemma ticks_avanza (vs : list R) (r : Resultados) (n : nat) :
  forall a,
    isPlaying a = true ->
    0 <= animationSpeed a ->
    currentFrame a + INR n * animationSpeed a < INR (length (posicion r)) ->
    currentFrame (ticks r n a) = currentFrame a + INR n * animationSpeed a
    /\ animationSpeed (ticks r n a) = animationSpeed a
    /\ isPlaying (ticks r n a) = true
    /\ (alcanzable_con vs r a -> alcanzable_con vs r (ticks r n a)).
Proof.
  induction n as [|n IH]; intros a Hplay Hs Hlt.
  - cbn. repeat split; auto. lra.
  - rewrite S_INR in Hlt |- *.
    destruct (IH a Hplay Hs) as (Hf & Hv & Hp & Hr); [nra |].
    change (ticks r (S n) a) with (animate r (ticks r n a)).
    rewrite animate_avanza by (rewrite Hf, Hv; lra). cbn.
    rewrite Hf, Hv. repeat split; [ring | exact Hp |].
    intros Ha. specialize (Hr Ha).
    pose proof (paso_tick vs r _ Hp) as Hstep.
    rewrite animate_avanza in Hstep by (rewrite Hf, Hv; lra).
    rewrite Hf, Hv in Hstep.
    exact (alcanzable_paso vs r _ _ Hr Hstep).
Qed.

Lemma resultados_iniciales_longitud :
  length (posicion resultados_iniciales) = 1001%nat.
Proof.
  unfold resultados_iniciales.
  destruct (simulateSystem_length parametros_iniciales control_inicial) as (_ & Hlen & _).
  rewrite Hlen. unfold muestras. cbn [stop_time step_time control_inicial].
  replace ((10 - 0) / 0.01) with (IZR 1000) by lra.
  rewrite Math_floor_IZR. reflexivity.
Qed.

(** C9, as the code has it.  In a tick whose next frame (current frame plus
    the speed multiplier) reaches or passes the number of samples, playback
    is paused and the frame value becomes [posicion.length - 1].  Starting
    from frame 0 on a trajectory with at least one sample, every reachable
    frame value lies in [0, posicion.length), so the sample index
    [Math.floor(currentFrame)] never exceeds [posicion.length - 1]. *)
Theorem animacion_auto_stop (r : Resultados) :
  (1 <= length (posicion r))%nat ->
  (forall a,
     isPlaying a = true ->
     currentFrame a + animationSpeed a >= INR (length (posicion r)) ->
     isPlaying (animate r a) = false
     /\ currentFrame (animate r a) = INR (length (posicion r)) - 1)
  /\ (forall a,
        alcanzable r a ->
        0 <= currentFrame a < INR (length (posicion r))
        /\ (Math_floor (currentFrame a) <= Z.of_nat (length (posicion r)) - 1)%Z).
Proof.
  intros Hlen. split.
  - intros a Hplay Hge. rewrite (animate_fin r a Hge). cbn.
    rewrite Hplay. split; reflexivity.
  - intros a Ha.
    destruct (alcanzable_invariante velocidades r velocidades_positivas Hlen a Ha)
      as (_ & Hf0 & Hf1).
    split; [lra |].
    unfold Math_floor. destruct (base_Int_part (currentFrame a)) as [Hup _].
    rewrite INR_IZR_INZ in Hf1.
    assert (H : IZR (Int_part (currentFrame a)) < IZR (Z.of_nat (length (posicion r))))
      by lra.
    apply lt_IZR in H. lia.
Qed.

Lemma animacion_auto_stop_witness :
  (1 <= length (posicion resultados_iniciales))%nat
  /\ 0 <= currentFrame animacion_inicial < INR (length (posicion resultados_iniciales)).
Proof.
  assert (Hlen : (1 <= length (posicion resultados_iniciales))%nat)
    by (rewrite resultados_iniciales_longitud; lia).
  split; [exact Hlen |].
  destruct (animacion_auto_stop resultados_iniciales Hlen) as (_ & Hinv).
  exact (proj1 (Hinv animacion_inicial
                     (alcanzable_inicial velocidades resultados_iniciales))).
Defined.

(** At half speed the frame value passes the last index: on the 1001 samples
    of the initial form values, 2001 ticks at 0.5x reach frame 1000.5, above
    [posicion.length - 1 = 1000]. *)
Lemma fotograma_supera_ultimo_indice :
  exists a,
    alcanzable resultados_iniciales a
    /\ currentFrame a = 1000.5
    /\ INR (length (posicion resultados_iniciales)) - 1 < currentFrame a.
Proof.
  set (a2 := handleAnimationPlayPause (setAnimationSpeed 0.5 animacion_inicial)).
  assert (Hlen : INR (length (posicion resultados_iniciales)) = 1001).
  { rewrite resultados_iniciales_longitud, INR_IZR_INZ. reflexivity. }
  assert (Hn : INR 2001 = 2001).
  { rewrite INR_IZR_INZ. reflexivity. }
  assert (Ha2 : alcanzable resultados_iniciales a2).
  { apply (alcanzable_paso _ _ (setAnimationSpeed 0.5 animacion_inicial)).
    - apply (alcanzable_paso _ _ animacion_inicial); [constructor |].
      apply paso_velocidad. unfold velocidades. simpl. auto.
    - apply paso_play_pause. }
  destruct (ticks_avanza velocidades resultados_iniciales 2001 a2) as (Hf & _ & _ & Hr).
  - reflexivity.
  - unfold a2. cbn [animationSpeed handleAnimationPlayPause setAnimationSpeed]. lra.
  - rewrite Hlen, Hn. unfold a2. cbn [currentFrame animationSpeed handleAnimationPlayPause setAnimationSpeed animacion_inicial]. lra.
  - exists (ticks resultados_iniciales 2001 a2).
    rewrite Hf, Hlen, Hn. subst a2.
    cbn [currentFrame animationSpeed handleAnimationPlayPause setAnimationSpeed animacion_inicial].
    repeat split; [exact (Hr Ha2) | lra | lra].
Qed.

(** ** Further properties of the generator *)


(** [Math.max] and [Math.min] of a non-empty array are its greatest and
    least elements. *)
Lemma Math_max_mayor (xs : list R) :
  xs <> [] ->
  exists m, Math_max xs = Num m /\ In m xs /\ forall x, In x xs -> x <= m.
Proof.
  induction xs as [|x xs IH]; intros Hne; [contradiction |].
  destruct xs as [|y ys].
  - exists x. cbn. repeat split; auto. intros z [<-|[]]. lra.
  - destruct IH as (m & Hm & Hin & Hle); [discriminate |].
    cbn [Math_max] in Hm |- *. rewrite Hm.
    exists (Rmax x m). split; [reflexivity | split].
    + unfold Rmax. destruct (Rle_dec x m); [right; exact Hin | left; reflexivity].
    + intros z [<-|Hz].
      * apply Rmax_l.
      * apply Rle_trans with m; [now apply Hle | apply Rmax_r].
Qed.

Lemma Math_min_menor (xs : list R) :
  xs <> [] ->
  exists m, Math_min xs = Num m /\ In m xs /\ forall x, In x xs -> m <= x.
Proof.
  induction xs as [|x xs IH]; intros Hne; [contradiction |].
  destruct xs as [|y ys].
  - exists x. cbn. repeat split; auto. intros z [<-|[]]. lra.
  - destruct IH as (m & Hm & Hin & Hle); [discriminate |].
    cbn [Math_min] in Hm |- *. rewrite Hm.
    exists (Rmin x m). split; [reflexivity | split].
    + unfold Rmin. destruct (Rle_dec x m); [left; reflexivity | right; exact Hin].
    + intros z [<-|Hz].
      * apply Rmin_l.
      * apply Rle_trans with m; [apply Rmin_r | now apply Hle].
Qed.

(** X2. The position statistics are those of a direct scan: the extremes are
    samples bounding every sample, and [amplitud] is their difference. *)
Theorem estadisticas_posicion (p : Parametros) (c : ControlSimulacion) :
  step_time c < stop_time c ->
  let r := simulateSystem p c in
  exists lo hi,
    posicion_minima (estadisticas r) = Num lo
    /\ posicion_maxima (estadisticas r) = Num hi
    /\ amplitud (estadisticas r) = Num (hi - lo)
    /\ In lo (posicion r) /\ In hi (posicion r)
    /\ forall x, In x (posicion r) -> lo <= x <= hi.
Proof.
  intros Hc. cbv zeta.
  pose proof (posicion_no_vacia p c Hc) as Hne.
  destruct (Math_min_menor _ Hne) as (lo & Hlo & Hinlo & Hlelo).
  destruct (Math_max_mayor _ Hne) as (hi & Hhi & Hinhi & Hlehi).
  exists lo, hi.
  change (posicion_minima (estadisticas (simulateSystem p c)))
    with (Math_min (posicion (simulateSystem p c))).
  change (posicion_maxima (estadisticas (simulateSystem p c)))
    with (Math_max (posicion (simulateSystem p c))).
  change (amplitud (estadisticas (simulateSystem p c)))
    with (nsub (Math_max (posicion (simulateSystem p c)))
               (Math_min (posicion (simulateSystem p c)))).
  rewrite Hlo, Hhi. cbn [nsub nopp nadd].
  repeat split; auto.
Qed.

Lemma estadisticas_posicion_witness :
  step_time control_inicial < stop_time control_inicial
  /\ exists lo hi,
       amplitud (estadisticas (simulateSystem parametros_iniciales control_inicial))
       = Num (hi - lo).
Proof.
  assert (Hc : step_time control_inicial < stop_time control_inicial)
    by (simpl; lra).
  split; [exact Hc |].
  destruct (estadisticas_posicion parametros_iniciales control_inicial Hc)
    as (lo & hi & _ & _ & Hamp & _).
  exists lo, hi. exact Hamp.
Defined.

(** *** Derived quantities under valid parameters *)

Section Validos.

Variable p : Parametros.
Hypothesis Hvalido : parametros_validos p.

Lemma omega0_pos : 0 < omega0 p.
Proof.
  destruct Hvalido as (Hm & Hk & _). unfold omega0.
  apply sqrt_lt_R0. apply Rdiv_lt_0_compat; assumption.
Qed.

Lemma omega0_cuadrado : omega0 p * omega0 p = constante_resorte p / masa p.
Proof.
  destruct Hvalido as (Hm & Hk & _). unfold omega0.
  apply sqrt_sqrt. apply Rlt_le, Rdiv_lt_0_compat; assumption.
Qed.

(** [zeta * w0 = b / (2 m)], the [beta] of the result. *)
Lemma razon_por_omega0 :
  razon_amortiguamiento p * omega0 p = constante_amortiguamiento p / (2 * masa p).
Proof.
  destruct Hvalido as (Hm & Hk & _). unfold razon_amortiguamiento, omega0.
  rewrite sqrt_mult by lra. rewrite sqrt_div by lra.
  pose proof (sqrt_lt_R0 _ Hm) as Hsm. pose proof (sqrt_lt_R0 _ Hk) as Hsk.
  pose proof (sqrt_sqrt (masa p) (Rlt_le _ _ Hm)) as Hmm.
  rewrite <- Hmm at 3. field. split; lra.
Qed.

Lemma razon_no_negativa : 0 <= razon_amortiguamiento p.
Proof.
  destruct Hvalido as (Hm & Hk & Hb). unfold razon_amortiguamiento.
  apply Rmult_le_pos; [exact Hb |].
  apply Rlt_le, Rinv_0_lt_compat.
  pose proof (sqrt_lt_R0 _ (Rmult_lt_0_compat _ _ Hm Hk)). lra.
Qed.

Hypothesis Hsub : razon_amortiguamiento p < 1.


Lemma omegaD_cuadrado :
  let wd := omega0 p * sqrt (1 - razon_amortiguamiento p * razon_amortiguamiento p) in
  wd * wd
  = omega0 p * omega0 p
    - (razon_amortiguamiento p * omega0 p) * (razon_amortiguamiento p * omega0 p).
Proof.
  cbv zeta.
  assert (Hpos : 0 <= 1 - razon_amortiguamiento p * razon_amortiguamiento p)
    by (pose proof razon_no_negativa; nra).
  pose proof (sqrt_sqrt _ Hpos) as Hs.
  transitivity (omega0 p * omega0 p
                * (sqrt (1 - razon_amortiguamiento p * razon_amortiguamiento p)
                   * sqrt (1 - razon_amortiguamiento p * razon_amortiguamiento p)));
    [ring |].
  rewrite Hs. ring.
Qed.

End Validos.



(** X4. In the underdamped branch the closed form solves the equation of motion:
    the acceleration formula [-(k/m) x(t) - (b/m) v(t)] is the derivative of
    the velocity formula, so [m x'' + b x' + k x = 0] along the formula. *)
Theorem subamortiguado_resuelve_ecuacion (p : Parametros) (c : ControlSimulacion) :
  parametros_validos p ->
  constante_amortiguamiento p / (2 * sqrt (masa p * constante_resorte p)) < 1 ->
  let w0 := sqrt (constante_resorte p / masa p) in
  let z := constante_amortiguamiento p / (2 * sqrt (masa p * constante_resorte p)) in
  let wd := w0 * sqrt (1 - z * z) in
  let A := valor_inicial c in
  let B := (velocidad_inicial c + z * w0 * A) / wd in
  let pos := fun t => exp (- z * w0 * t) * (A * cos (wd * t) + B * sin (wd * t)) in
  let vel := fun t =>
    exp (- z * w0 * t)
    * ((- z * w0 * A + wd * B) * cos (wd * t)
       + (- wd * A - z * w0 * B) * sin (wd * t)) in
  forall t,
    derivable_pt_lim vel t
      (- constante_resorte p / masa p * pos t
       - constante_amortiguamiento p / masa p * vel t).
Proof.
  intros Hv Hz. cbv zeta. intros t.
  fold (omega0 p) (razon_amortiguamiento p) in *.
  pose proof (omega0_cuadrado p Hv) as Hw0.
  pose proof (razon_por_omega0 p Hv) as Hzw.
  pose proof (omegaD_cuadrado p Hv Hz) as Hwd. cbv zeta in Hwd.
  set (wd := omega0 p * sqrt (1 - razon_amortiguamiento p * razon_amortiguamiento p)) in *.
  set (B := (velocidad_inicial c + razon_amortiguamiento p * omega0 p * valor_inicial c) / wd).
  set (a := razon_amortiguamiento p * omega0 p) in *.
  assert (Hkm : - constante_resorte p / masa p = - (a * a + wd * wd))
    by (rewrite Hwd; unfold Rdiv in *; rewrite Ropp_mult_distr_l_reverse, <- Hw0; ring).
  assert (Hbm : constante_amortiguamiento p / masa p = 2 * a).
  { destruct Hv as (Hm & _). rewrite Hzw. field. lra. }
  rewrite Hkm, Hbm.
  replace (- razon_amortiguamiento p * omega0 p) with (- a) by (unfold a; ring).
  eapply derivable_pt_lim_valor.
  - apply (derivada_oscilacion_amortiguada (- a) wd
             (- a * valor_inicial c + wd * B) (- wd * valor_inicial c - a * B) t).
  - ring.
Qed.

Lemma subamortiguado_resuelve_ecuacion_witness :
  let w0 := sqrt (4 / 1) in
  let z := 0.2 / (2 * sqrt (1 * 4)) in
  let wd := w0 * sqrt (1 - z * z) in
  let B := (0 + z * w0 * 1) / wd in
  let pos := fun t => exp (- z * w0 * t) * (1 * cos (wd * t) + B * sin (wd * t)) in
  let vel := fun t =>
    exp (- z * w0 * t)
    * ((- z * w0 * 1 + wd * B) * cos (wd * t) + (- wd * 1 - z * w0 * B) * sin (wd * t)) in
  derivable_pt_lim vel 0 (- 4 / 1 * pos 0 - 0.2 / 1 * vel 0).
Proof.
  apply (subamortiguado_resuelve_ecuacion parametros_iniciales control_inicial).
  - unfold parametros_validos; simpl; lra.
  - exact razon_parametros_iniciales.
Defined.

(** X5. The simplified closed form of the last branch does not solve the equation
    of motion: for a non-zero initial position, the acceleration formula at
    [t = 0] is not the derivative of the velocity formula there. *)
Theorem sobreamortiguado_no_resuelve_ecuacion (p : Parametros) (c : ControlSimulacion) :
  parametros_validos p ->
  1 <= constante_amortiguamiento p / (2 * sqrt (masa p * constante_resorte p)) ->
  valor_inicial c <> 0 ->
  let w0 := sqrt (constante_resorte p / masa p) in
  let z := constante_amortiguamiento p / (2 * sqrt (masa p * constante_resorte p)) in
  let y0 := valor_inicial c in
  let pos := fun t => y0 * exp (- z * w0 * t) * cos (w0 * t) in
  let vel := fun t =>
    y0 * exp (- z * w0 * t) * (- z * w0 * cos (w0 * t) - w0 * sin (w0 * t)) in
  ~ derivable_pt_lim vel 0
      (- constante_resorte p / masa p * pos 0
       - constante_amortiguamiento p / masa p * vel 0).
Proof.
  intros Hv Hz Hy. cbv zeta.
  fold (omega0 p) (razon_amortiguamiento p) in *.
  intros Hder.
  pose proof (omega0_cuadrado p Hv) as Hw0.
  pose proof (razon_por_omega0 p Hv) as Hzw.
  pose proof (omega0_pos p Hv) as Hpos.
  set (a := razon_amortiguamiento p * omega0 p) in *.
  assert (Hbm : constante_amortiguamiento p / masa p = 2 * a).
  { destruct Hv as (Hm & _). rewrite Hzw. field. lra. }
  assert (Hreal : derivable_pt_lim
            (fun t => valor_inicial c * exp (- razon_amortiguamiento p * omega0 p * t)
                      * (- razon_amortiguamiento p * omega0 p * cos (omega0 p * t)
                         - omega0 p * sin (omega0 p * t))) 0
            (valor_inicial c * (a * a - omega0 p * omega0 p))).
  { pose proof (derivada_oscilacion_amortiguada (- a) (omega0 p)
                  (valor_inicial c * - a) (valor_inicial c * - omega0 p) 0) as H.
    replace (- razon_amortiguamiento p * omega0 p) with (- a) by (unfold a; ring).
    eapply derivable_pt_lim_valor.
    - eapply derivable_pt_lim_ext; [| exact H].
      intros t. cbv beta. ring.
    - rewrite !Rmult_0_r, exp_0, cos_0, sin_0. ring. }
  pose proof (uniqueness_limite _ _ _ _ Hder Hreal) as Heq.
  rewrite Hbm in Heq.
  replace (- constante_resorte p / masa p) with (- (omega0 p * omega0 p)) in Heq
    by (rewrite Hw0; unfold Rdiv; ring).
  replace (- razon_amortiguamiento p * omega0 p) with (- a) in Heq by (unfold a; ring).
  rewrite !Rmult_0_r, exp_0, cos_0, sin_0 in Heq.
  assert (Ha : 1 * omega0 p <= a).
  { unfold a. apply Rmult_le_compat_r; lra. }
  assert (Hzero : valor_inicial c * (a * a) = 0) by lra.
  apply Rmult_integral in Hzero. destruct Hzero as [H0|H0]; [contradiction |].
  nra.
Qed.

Lemma sobreamortiguado_no_resuelve_ecuacion_witness :
  let w0 := sqrt (4 / 1) in
  let z := 4 / (2 * sqrt (1 * 4)) in
  let pos := fun t => 1 * exp (- z * w0 * t) * cos (w0 * t) in
  let vel := fun t =>
    1 * exp (- z * w0 * t) * (- z * w0 * cos (w0 * t) - w0 * sin (w0 * t)) in
  ~ derivable_pt_lim vel 0 (- 4 / 1 * pos 0 - 4 / 1 * vel 0).
Proof.
  apply (sobreamortiguado_no_resuelve_ecuacion amortiguamiento_critico control_inicial).
  - unfold parametros_validos; simpl; lra.
  - exact razon_amortiguamiento_critico.
  - simpl; lra.
Defined.

(** ** Further properties of the chart range and of the animation *)

(** X6. Auto-scaling of a non-empty series: a margin of a tenth of the range on
    each side, visible exactly when the series is not constant. *)
Theorem autoEscala_margen (posiciones : list R) (prev : EscalaGrafico) :
  posiciones <> [] ->
  exists lo hi,
    Math_min posiciones = Num lo
    /\ Math_max posiciones = Num hi
    /\ y_min (autoEscala posiciones prev) = Num (lo - (hi - lo) * 0.1)
    /\ y_max (autoEscala posiciones prev) = Num (hi + (hi - lo) * 0.1)
    /\ (nlt (y_min (autoEscala posiciones prev)) (y_max (autoEscala posiciones prev))
        <-> lo < hi).
Proof.
  intros Hne.
  destruct (Math_min_menor _ Hne) as (lo & Hlo & Hinlo & Hlelo).
  destruct (Math_max_mayor _ Hne) as (hi & Hhi & Hinhi & Hlehi).
  exists lo, hi. unfold autoEscala. cbv zeta. cbn [y_min y_max].
  rewrite Hlo, Hhi. cbn [nsub nopp nadd nmul nlt].
  pose proof (Hlelo hi Hinhi) as Hle.
  repeat split; try (f_equal; ring); intros H; lra.
Qed.

Lemma autoEscala_margen_witness :
  exists lo hi,
    y_min (autoEscala [1; 3] (mkEscala (Num (-2)) (Num 2) true)) = Num (lo - (hi - lo) * 0.1)
    /\ y_max (autoEscala [1; 3] (mkEscala (Num (-2)) (Num 2) true))
       = Num (hi + (hi - lo) * 0.1).
Proof.
  destruct (autoEscala_margen [1; 3] (mkEscala (Num (-2)) (Num 2) true))
    as (lo & hi & _ & _ & Hmin & Hmax & _).
  - discriminate.
  - exists lo, hi. split; assumption.
Defined.

(** At the whole speeds 1x, 2x and 4x every frame value and every speed is a
    whole number. *)
Lemma alcanzable_entero (r : Resultados) :
  forall a, alcanzable_con [1; 2; 4] r a ->
    (exists z, currentFrame a = IZR z) /\ (exists k, animationSpeed a = IZR k).
Proof.
  induction 1 as [|a a' Ha IH Hstep].
  - split; [exists 0%Z | exists 1%Z]; reflexivity.
  - destruct IH as ((z & Hz) & (k & Hk)).
    destruct Hstep as [a Hplay | a | a | a s Hin]; cbn.
    + unfold animate. cbv zeta. destruct (Rge_dec _ _); cbn.
      * split; [| now exists k].
        exists (Z.of_nat (length (posicion r)) - 1)%Z.
        now rewrite minus_IZR, INR_IZR_INZ.
      * split; [| now exists k].
        exists (z + k)%Z. now rewrite plus_IZR, Hz, Hk.
    + split; [now exists z | now exists k].
    + split; [now exists 0%Z | now exists k].
    + split; [now exists z |].
      simpl in Hin. destruct Hin as [<-|[<-|[<-|[]]]];
        [exists 1%Z | exists 2%Z | exists 4%Z]; reflexivity.
Qed.

(** X7. When only the whole speeds 1x, 2x and 4x are selected, the frame
    value never exceeds [posicion.length - 1]. *)
Theorem animacion_velocidad_entera (r : Resultados) :
  (1 <= length (posicion r))%nat ->
  forall a, alcanzable_con [1; 2; 4] r a ->
    currentFrame a <= INR (length (posicion r)) - 1.
Proof.
  intros Hlen a Ha.
  destruct (alcanzable_invariante [1; 2; 4] r) with (a := a) as (_ & _ & Hlt);
    [| exact Hlen | exact Ha |].
  { simpl. intros s [<-|[<-|[<-|[]]]]; lra. }
  destruct (alcanzable_entero r a Ha) as ((z & Hz) & _).
  rewrite Hz, INR_IZR_INZ in *.
  apply lt_IZR in Hlt.
  rewrite <- minus_IZR. apply IZR_le. lia.
Qed.

Lemma animacion_velocidad_entera_witness :
  currentFrame animacion_inicial <= INR (length (posicion resultados_iniciales)) - 1.
Proof.
  apply (animacion_velocidad_entera resultados_iniciales).
  - rewrite resultados_iniciales_longitud. lia.
  - apply alcanzable_inicial.
Defined.

(** * Further code: chart data, drawing, handlers, remote requests *)

(** ** Rounding for the chart *)

(** A value printed with [digitos] decimals and read back is within half a
    unit of the last decimal of the value. *)
Lemma parseFloat_toFixed_cerca (digitos : nat) (x : R) :
  Rabs (parseFloat_toFixed digitos x - x) <= / (2 * 10 ^ digitos).
Proof.
  assert (HP : 0 < 10 ^ digitos) by (apply pow_lt; lra).
  unfold parseFloat_toFixed.
  destruct (Rle_dec (10 ^ 21) (Rabs x)) as [_|_].
  - replace (x - x) with 0 by ring. rewrite Rabs_R0.
    apply Rlt_le, Rinv_0_lt_compat. lra.
  - set (P := 10 ^ digitos) in *.
    unfold Math_floor.
    destruct (base_Int_part (Rabs x * P + 1 / 2)) as [Hup Hlow].
    set (n := IZR (Int_part (Rabs x * P + 1 / 2))) in *.
    assert (Hn : Rabs (n / P - Rabs x) <= / (2 * P)).
    { replace (n / P - Rabs x) with ((n - Rabs x * P) * / P) by (field; lra).
      rewrite Rabs_mult, (Rabs_right (/ P))
        by (apply Rle_ge, Rlt_le, Rinv_0_lt_compat; exact HP).
      rewrite Rinv_mult.
      apply Rmult_le_compat_r; [apply Rlt_le, Rinv_0_lt_compat; exact HP |].
      apply Rabs_le. lra. }
    destruct (Rlt_dec x 0) as [Hneg|Hpos].
    + rewrite (Rabs_left x Hneg) in Hn.
      replace (-1 * n / P - x) with (- (n / P - - x)) by (field; lra).
      now rewrite Rabs_Ropp.
    + rewrite (Rabs_right x) in Hn by lra.
      replace (1 * n / P - x) with (n / P - x) by (field; lra).
      exact Hn.
Qed.

(** ** The rows of the chart *)

Lemma filas_desde_ok (r : Resultados) (ts : list R) :
  forall index,
    (index + length ts <= length (posicion r))%nat ->
    (index + length ts <= length (velocidad r))%nat ->
    (index + length ts <= length (aceleracion r))%nat ->
    exists pts,
      filas_desde r index ts = Some pts
      /\ length pts = length ts
      /\ forall i pt, nth_error pts i = Some pt ->
           exists t x v a,
             nth_error ts i = Some t
             /\ nth_error (posicion r) (index + i) = Some x
             /\ nth_error (velocidad r) (index + i) = Some v
             /\ nth_error (aceleracion r) (index + i) = Some a
             /\ pt = mkPunto (parseFloat_toFixed 3 t) (parseFloat_toFixed 4 x)
                             (parseFloat_toFixed 4 v) (parseFloat_toFixed 4 a).
Proof.
  induction ts as [|t ts IH]; intros index Hp Hv Ha.
  - exists []. repeat split. intros [|i] pt H; discriminate H.
  - cbn [length] in Hp, Hv, Ha. cbn [filas_desde].
    destruct (nth_error (posicion r) index) as [x|] eqn:Ex;
      [| apply nth_error_None in Ex; lia].
    destruct (nth_error (velocidad r) index) as [v|] eqn:Ev;
      [| apply nth_error_None in Ev; lia].
    destruct (nth_error (aceleracion r) index) as [a|] eqn:Ea;
      [| apply nth_error_None in Ea; lia].
    destruct (IH (S index)) as (pts & Hpts & Hlen & Hnth); try lia.
    rewrite Hpts. cbn [option_map]. eexists. split; [reflexivity |].
    split; [cbn [length]; now rewrite Hlen |].
    intros [|i] pt Hi.
    + injection Hi as <-. exists t, x, v, a.
      rewrite Nat.add_0_r. repeat split; assumption.
    + cbn [nth_error] in Hi.
      destruct (Hnth i pt Hi) as (t' & x' & v' & a' & H1 & H2 & H3 & H4 & H5).
      exists t', x', v', a'.
      replace (index + S i)%nat with (S index + i)%nat by lia.
      repeat split; assumption.
Qed.

Lemma filas_desde_falla (r : Resultados) (ts : list R) :
  forall index,
    (index <= length (posicion r))%nat ->
    (index <= length (velocidad r))%nat ->
    (index <= length (aceleracion r))%nat ->
    (filas_desde r index ts = None
     <-> (length (posicion r) < index + length ts
          \/ length (velocidad r) < index + length ts
          \/ length (aceleracion r) < index + length ts)%nat).
Proof.
  induction ts as [|t ts IH]; intros index Hp Hv Ha.
  - cbn. split; [discriminate | lia].
  - cbn [filas_desde length].
    destruct (nth_error (posicion r) index) as [x|] eqn:Ex.
    2:{ apply nth_error_None in Ex. split; [lia | reflexivity]. }
    destruct (nth_error (velocidad r) index) as [v|] eqn:Ev.
    2:{ apply nth_error_None in Ev. split; [lia | reflexivity]. }
    destruct (nth_error (aceleracion r) index) as [a|] eqn:Ea.
    2:{ apply nth_error_None in Ea. split; [lia | reflexivity]. }
    assert (Hx : (index < length (posicion r))%nat)
      by (apply nth_error_Some; congruence).
    assert (Hvv : (index < length (velocidad r))%nat)
      by (apply nth_error_Some; congruence).
    assert (Haa : (index < length (aceleracion r))%nat)
      by (apply nth_error_Some; congruence).
    specialize (IH (S index) Hx Hvv Haa).
    destruct (filas_desde r (S index) ts) as [pts|]; cbn [option_map].
    + split; [discriminate |]. intros H.
      assert (E : Some pts = None) by (apply IH; lia). discriminate E.
    + split; [| reflexivity]. intros _.
      destruct IH as [IH _]. specialize (IH eq_refl). lia.
Qed.

(** X8. [prepararDatosGrafico] returns no row without a trajectory, and
    fails (a [TypeError], on [undefined.toFixed]) exactly when one of
    posicion, velocidad, aceleracion is shorter than tiempo. *)
Theorem prepararDatosGrafico_error (r : Resultados) :
  prepararDatosGrafico None = Some []
  /\ (prepararDatosGrafico (Some r) = None
      <-> (length (posicion r) < length (tiempo r)
           \/ length (velocidad r) < length (tiempo r)
           \/ length (aceleracion r) < length (tiempo r))%nat).
Proof.
  split; [reflexivity |].
  unfold prepararDatosGrafico.
  rewrite (filas_desde_falla r (tiempo r) 0) by lia.
  reflexivity.
Qed.

(** X9. On a trajectory of [simulateSystem] the chart data is always built:
    one row per sample, and in every row the time is within 0.0005 and the
    position, velocity and acceleration within 0.00005 of the sample. *)
Theorem prepararDatosGrafico_generador (p : Parametros) (c : ControlSimulacion) :
  let r := simulateSystem p c in
  exists filas,
    prepararDatosGrafico (Some r) = Some filas
    /\ length filas = length (tiempo r)
    /\ forall i fila, nth_error filas i = Some fila ->
         exists t x v a,
           nth_error (tiempo r) i = Some t
           /\ nth_error (posicion r) i = Some x
           /\ nth_error (velocidad r) i = Some v
           /\ nth_error (aceleracion r) i = Some a
           /\ Rabs (pt_tiempo fila - t) <= 0.0005
           /\ Rabs (pt_posicion fila - x) <= 0.00005
           /\ Rabs (pt_velocidad fila - v) <= 0.00005
           /\ Rabs (pt_aceleracion fila - a) <= 0.00005.
Proof.
  cbv zeta.
  destruct (simulateSystem_length p c) as (Ht & Hp & Hv & Ha).
  destruct (filas_desde_ok (simulateSystem p c) (tiempo (simulateSystem p c)) 0)
    as (filas & Hf & Hlen & Hnth); try lia.
  exists filas. split; [exact Hf | split; [exact Hlen |]].
  intros i fila Hi.
  destruct (Hnth i fila Hi) as (t & x & v & a & H1 & H2 & H3 & H4 & ->).
  exists t, x, v, a. cbn [pt_tiempo pt_posicion pt_velocidad pt_aceleracion].
  cbn [Nat.add] in H2, H3, H4.
  repeat split; try assumption.
  - eapply Rle_trans; [apply parseFloat_toFixed_cerca |]. simpl pow. lra.
  - eapply Rle_trans; [apply parseFloat_toFixed_cerca |]. simpl pow. lra.
  - eapply Rle_trans; [apply parseFloat_toFixed_cerca |]. simpl pow. lra.
  - eapply Rle_trans; [apply parseFloat_toFixed_cerca |]. simpl pow. lra.
Qed.

(** ** The moving point of the chart *)

Lemma elemento_Some {A : Type} (xs : list A) (i : Z) :
  (0 <= i < Z.of_nat (length xs))%Z ->
  exists x, elemento xs i = Some x /\ nth_error xs (Z.to_nat i) = Some x.
Proof.
  intros Hi. unfold elemento.
  destruct (Z.ltb_spec i 0) as [Hneg|_]; [lia |].
  destruct (nth_error xs (Z.to_nat i)) as [x|] eqn:E.
  - exists x. split; reflexivity.
  - apply nth_error_None in E. lia.
Qed.

(** X10. [getCurrentPointData] returns [null] exactly when there are no rows
    or the frame is negative; otherwise it returns the row of index
    [min(floor(frame), length - 1)], which always exists: a frame beyond the
    end shows the last row. *)
Theorem getCurrentPointData_indice (graphData : list Punto) (frame : R) :
  (getCurrentPointData graphData frame = None <-> graphData = [] \/ frame < 0)
  /\ (forall fila, getCurrentPointData graphData frame = Some fila ->
        exists i,
          (i < length graphData)%nat
          /\ nth_error graphData i = Some fila
          /\ Z.of_nat i
             = Z.min (Math_floor frame) (Z.of_nat (length graphData) - 1)).
Proof.
  unfold getCurrentPointData. cbv zeta.
  destruct (Nat.eqb_spec (length graphData) 0) as [Hlen|Hlen].
  { apply length_zero_iff_nil in Hlen. split; [tauto | discriminate]. }
  assert (Hne : graphData <> []) by (intros E; apply Hlen; now rewrite E).
  destruct (Rlt_dec frame 0) as [Hneg|Hpos].
  { split; [tauto | discriminate]. }
  pose proof (Math_floor_nonneg frame ltac:(lra)) as Hfl.
  set (idx := Z.min (Math_floor frame) (Z.of_nat (length graphData) - 1)).
  assert (Hidx : (0 <= idx < Z.of_nat (length graphData))%Z) by (unfold idx; lia).
  destruct (elemento_Some graphData idx Hidx) as (x & Hx & Hnth).
  rewrite Hx. split.
  - split; [discriminate |]. intros [E|E]; [contradiction | lra].
  - intros fila E. injection E as <-.
    exists (Z.to_nat idx). repeat split; [lia | exact Hnth | lia].
Qed.

(** *** Frames that fit the trajectory *)

(** A tick or a control keeps the frames within the trajectory. *)
Lemma paso_en_rango (r : Resultados) (a a' : Animacion) :
  en_rango r a -> paso_animacion velocidades r a a' -> en_rango r a'.
Proof.
  intros (Hs & Hf & Hg) Hstep.
  pose proof (velocidades_positivas _ Hs) as Hpos.
  assert (Hl : 1 <= INR (length (posicion r))).
  { destruct (length (posicion r)) as [|n] eqn:E.
    - cbn [INR] in Hf. lra.
    - rewrite S_INR. pose proof (pos_INR n). lra. }
  destruct Hstep as [a Hplay | a | a | a s Hin]; unfold en_rango.
  - destruct (Rlt_le_dec (currentFrame a + animationSpeed a)
                         (INR (length (posicion r)))) as [Hlt|Hge].
    + rewrite (animate_avanza r a Hlt). cbn. repeat split; try assumption; lra.
    + rewrite (animate_fin r a (Rle_ge _ _ Hge)). cbn.
      repeat split; try assumption; lra.
  - cbn. repeat split; try assumption; lra.
  - cbn. repeat split; try assumption; lra.
  - cbn. repeat split; try assumption; lra.
Qed.

Lemma pasos_en_rango (r : Resultados) (a0 a : Animacion) :
  en_rango r a0 -> pasos_animacion velocidades r a0 a -> en_rango r a.
Proof.
  intros H0. induction 1 as [|a a' a'' _ IH Hstep]; [exact H0 |].
  exact (paso_en_rango r a' a'' (IH H0) Hstep).
Qed.

(** When the page loads, the frames fit any trajectory with a sample. *)
Lemma animacion_inicial_en_rango (r : Resultados) :
  (1 <= length (posicion r))%nat -> en_rango r animacion_inicial.
Proof.
  intros Hlen.
  assert (Hl : 1 <= INR (length (posicion r))) by (apply (le_INR 1); exact Hlen).
  unfold en_rango, velocidades. cbn. repeat split; lra.
Qed.

(** X11. If the speed is one of the selector and the frame of the component
    and the frame last reported to the chart are in [0, N) for the [N] rows
    of the trajectory on display, then after any ticks and controls of the
    animation of that trajectory they still are, and the moving point of the
    chart is the row of the frame last reported: that row exists and the
    clamp to the last row is not needed.  A frame left over from a longer
    trajectory is outside this condition. *)
Theorem punto_movil_en_rango (r : Resultados) (graphData : list Punto)
        (a0 a : Animacion) :
  length graphData = length (posicion r) ->
  en_rango r a0 ->
  pasos_animacion velocidades r a0 a ->
  en_rango r a
  /\ exists fila,
       getCurrentPointData graphData (currentAnimationFrame a) = Some fila
       /\ nth_error graphData (Z.to_nat (Math_floor (currentAnimationFrame a)))
          = Some fila.
Proof.
  intros Hg H0 Hrun.
  pose proof (pasos_en_rango r a0 a H0 Hrun) as Ha.
  split; [exact Ha |].
  destruct Ha as (_ & _ & H1 & H2).
  assert (Hfl : (0 <= Math_floor (currentAnimationFrame a)
                 < Z.of_nat (length graphData))%Z).
  { split; [apply Math_floor_nonneg; exact H1 |].
    unfold Math_floor. destruct (base_Int_part (currentAnimationFrame a)) as [Hup _].
    rewrite Hg. rewrite INR_IZR_INZ in H2. apply lt_IZR. lra. }
  destruct (elemento_Some graphData _ Hfl) as (fila & Hel & Hnth).
  exists fila. split; [| exact Hnth].
  unfold getCurrentPointData. cbv zeta.
  destruct (Nat.eqb_spec (length graphData) 0) as [E|_]; [lia |].
  destruct (Rlt_dec (currentAnimationFrame a) 0) as [Hneg|_]; [lra |].
  rewrite Z.min_l by lia. exact Hel.
Qed.

(** The animation of the initial trajectory, "play" pressed when the page
    has loaded: a run from a state whose frames fit. *)
Lemma pasos_tras_play :
  en_rango resultados_iniciales animacion_inicial
  /\ pasos_animacion velocidades resultados_iniciales animacion_inicial
       (handleAnimationPlayPause animacion_inicial).
Proof.
  split.
  - apply animacion_inicial_en_rango. rewrite resultados_iniciales_longitud. lia.
  - eapply pasos_uno_mas; [apply pasos_ninguno | apply paso_play_pause].
Qed.

Lemma punto_movil_en_rango_witness :
  exists fila,
    getCurrentPointData filas_iniciales
      (currentAnimationFrame (handleAnimationPlayPause animacion_inicial))
    = Some fila.
Proof.
  destruct pasos_tras_play as (H0 & Hrun).
  destruct (punto_movil_en_rango resultados_iniciales filas_iniciales
              animacion_inicial (handleAnimationPlayPause animacion_inicial))
    as (_ & fila & Hfila & _).
  - unfold filas_iniciales. apply length_map.
  - exact H0.
  - exact Hrun.
  - exists fila. exact Hfila.
Defined.

(** ** The drawing of the mass and the spring *)

(** The position drawn is a sample or, without one, zero. *)
Lemma currentPosition_muestra (r : Resultados) (frame : R) :
  Dibujo.currentPosition r frame = 0
  \/ In (Dibujo.currentPosition r frame) (posicion r).
Proof.
  unfold Dibujo.currentPosition, elemento.
  destruct (Z.ltb_spec (Math_floor frame) 0) as [_|_]; [now left |].
  destruct (nth_error (posicion r) (Z.to_nat (Math_floor frame))) as [x|] eqn:E;
    [| now left].
  destruct (Req_dec_T x 0) as [_|_]; [now left |].
  right. eapply nth_error_In. exact E.
Qed.

Lemma o_numero_abs (x : R) :
  exists x', o_numero (Num x) (Num 1) = Num x' /\ Rabs x <= Rabs x'.
Proof.
  unfold o_numero. destruct (Req_dec_T x 0) as [->|_].
  - exists 1. split; [reflexivity |]. rewrite Rabs_R0, Rabs_R1. lra.
  - exists x. split; [reflexivity | lra].
Qed.

(** With statistics that are the extremes of the series, the mass is drawn
    within 80 units of the equilibrium line. *)
Lemma massY_en_rango (r : Resultados) (frame : R) :
  posicion_maxima (estadisticas r) = Math_max (posicion r) ->
  posicion_minima (estadisticas r) = Math_min (posicion r) ->
  exists y, Dibujo.massY r frame = Num y /\ 120 <= y <= 280.
Proof.
  intros Hmax Hmin.
  unfold Dibujo.massY, Dibujo.scale, Dibujo.maxAmplitude.
  rewrite Hmax, Hmin.
  unfold Dibujo.equilibriumPosition, Dibujo.svgHeight.
  destruct (currentPosition_muestra r frame) as [Hcp|Hcp].
  - rewrite Hcp.
    destruct (posicion r) as [|x0 xs] eqn:Epos.
    + cbn. eexists. split; [reflexivity | lra].
    + destruct (Math_max_mayor (x0 :: xs)) as (hi & -> & _); [discriminate |].
      destruct (Math_min_menor (x0 :: xs)) as (lo & -> & _); [discriminate |].
      destruct (o_numero_abs hi) as (hi' & -> & _).
      destruct (o_numero_abs lo) as (lo' & -> & _).
      cbn [Math_abs Math_max2 ndiv].
      destruct (Req_dec_T _ 0) as [E|_].
      { pose proof (Rmax_r (Rmax (Rabs hi') (Rabs lo')) 1). lra. }
      cbn [nmul nsub nopp nadd]. eexists. split; [reflexivity | lra].
  - destruct (posicion r) as [|x0 xs] eqn:Epos; [contradiction |].
    destruct (Math_max_mayor (x0 :: xs)) as (hi & -> & _ & Hhi); [discriminate |].
    destruct (Math_min_menor (x0 :: xs)) as (lo & -> & _ & Hlo); [discriminate |].
    destruct (o_numero_abs hi) as (hi' & -> & Hhi').
    destruct (o_numero_abs lo) as (lo' & -> & Hlo').
    cbn [Math_abs Math_max2 ndiv].
    set (cp := Dibujo.currentPosition r frame) in *.
    set (D := Rmax (Rmax (Rabs hi') (Rabs lo')) 1).
    assert (HD1 : 1 <= D) by apply Rmax_r.
    assert (Hcpabs : Rabs cp <= D).
    { apply Rle_trans with (Rmax (Rabs hi') (Rabs lo')); [| apply Rmax_l].
      specialize (Hhi cp Hcp). specialize (Hlo cp Hcp).
      pose proof (Rmax_l (Rabs hi') (Rabs lo')).
      pose proof (Rmax_r (Rabs hi') (Rabs lo')).
      pose proof (Rle_abs hi). pose proof (Rle_abs (- lo)).
      rewrite Rabs_Ropp in *.
      apply Rabs_le. lra. }
    destruct (Req_dec_T D 0) as [E|_]; [lra |].
    cbn [nmul nsub nopp nadd]. eexists. split; [reflexivity |].
    assert (Hq : -80 <= cp * (80 / D) <= 80).
    { pose proof (Rle_abs cp) as Hc1. pose proof (Rle_abs (- cp)) as Hc2.
      rewrite Rabs_Ropp in Hc2.
      assert (HDi : 0 < / D) by (apply Rinv_0_lt_compat; lra).
      assert (H1 : D * / D = 1) by (apply Rinv_r; lra).
      unfold Rdiv. split; nra. }
    lra.
Qed.

(** X12. Whatever the frame value (also one left over from a longer
    trajectory, or none of the samples), the mass of a trajectory of
    [simulateSystem] is drawn between 120 and 280 of the 400 units of the
    drawing: within 80 units of the equilibrium line at 200. *)
Theorem massY_generador (p : Parametros) (c : ControlSimulacion) (frame : R) :
  exists y,
    Dibujo.massY (simulateSystem p c) frame = Num y /\ 120 <= y <= 280.
Proof.
  apply massY_en_rango; reflexivity.
Qed.

Lemma segmentHeight_finito (y : R) :
  ndiv (nsub (nsub (Num y) (Num (Dibujo.massSize / 2))) (Num 50))
       (Num (IZR Dibujo.springSegments))
  = Num ((y - 15 - 50) / 10).
Proof.
  cbn [nsub nopp nadd ndiv]. unfold Dibujo.springSegments, Dibujo.massSize.
  destruct (Req_dec_T 10 0) as [E|_]; [lra |].
  f_equal. lra.
Qed.

(** The twenty commands of the path, for a finite ordinate of the mass. *)
Lemma generateSpringPath_comandos (y : R) :
  let h := (y - 15 - 50) / 10 in
  let centro := Num (Dibujo.svgWidth / 2) in
  let derecha := Num (Dibujo.svgWidth / 2 + Dibujo.springWidth / 2) in
  let izquierda := Num (Dibujo.svgWidth / 2 + - Dibujo.springWidth / 2) in
  Dibujo.generateSpringPath (Num y)
  = [Dibujo.M_ centro (Num 50);
     Dibujo.L_ derecha (Num (50 + 1 * h)); Dibujo.L_ centro (Num (50 + (1 + 0.5) * h));
     Dibujo.L_ izquierda (Num (50 + 2 * h)); Dibujo.L_ centro (Num (50 + (2 + 0.5) * h));
     Dibujo.L_ derecha (Num (50 + 3 * h)); Dibujo.L_ centro (Num (50 + (3 + 0.5) * h));
     Dibujo.L_ izquierda (Num (50 + 4 * h)); Dibujo.L_ centro (Num (50 + (4 + 0.5) * h));
     Dibujo.L_ derecha (Num (50 + 5 * h)); Dibujo.L_ centro (Num (50 + (5 + 0.5) * h));
     Dibujo.L_ izquierda (Num (50 + 6 * h)); Dibujo.L_ centro (Num (50 + (6 + 0.5) * h));
     Dibujo.L_ derecha (Num (50 + 7 * h)); Dibujo.L_ centro (Num (50 + (7 + 0.5) * h));
     Dibujo.L_ izquierda (Num (50 + 8 * h)); Dibujo.L_ centro (Num (50 + (8 + 0.5) * h));
     Dibujo.L_ derecha (Num (50 + 9 * h)); Dibujo.L_ centro (Num (50 + (9 + 0.5) * h));
     Dibujo.L_ izquierda (Num (50 + 10 * h))].
Proof.
  cbv zeta. unfold Dibujo.generateSpringPath. cbv zeta.
  rewrite segmentHeight_finito.
  reflexivity.
Qed.

(** X13. For a trajectory of [simulateSystem] and any frame value, the spring
    is a path of twenty commands that starts at the anchor (100, 50), ends at
    the height of the top edge of the mass ([massY - 15], at abscissa 80), and
    goes strictly downwards from one command to the next. *)
Theorem generateSpringPath_generador (p : Parametros) (c : ControlSimulacion) (frame : R) :
  let path := Dibujo.generateSpringPath (Dibujo.massY (simulateSystem p c) frame) in
  exists y ys,
    Dibujo.massY (simulateSystem p c) frame = Num y
    /\ length path = 20%nat
    /\ hd_error path = Some (Dibujo.M_ (Num 100) (Num 50))
    /\ last path (Dibujo.M_ NaN NaN) = Dibujo.L_ (Num 80) (Num (y - 15))
    /\ map Dibujo.ordenada path = map Num ys
    /\ Sorted Rlt ys.
Proof.
  cbv zeta.
  destruct (massY_en_rango (simulateSystem p c) frame eq_refl eq_refl) as (y & Hy & Hr).
  rewrite Hy, generateSpringPath_comandos. cbv zeta.
  set (h := (y - 15 - 50) / 10).
  assert (Hh : 0 < h) by (unfold h; lra).
  exists y.
  exists [50; 50 + 1 * h; 50 + (1 + 0.5) * h; 50 + 2 * h; 50 + (2 + 0.5) * h;
          50 + 3 * h; 50 + (3 + 0.5) * h; 50 + 4 * h; 50 + (4 + 0.5) * h;
          50 + 5 * h; 50 + (5 + 0.5) * h; 50 + 6 * h; 50 + (6 + 0.5) * h;
          50 + 7 * h; 50 + (7 + 0.5) * h; 50 + 8 * h; 50 + (8 + 0.5) * h;
          50 + 9 * h; 50 + (9 + 0.5) * h; 50 + 10 * h].
  split; [reflexivity |]. split; [reflexivity |].
  split; [cbn [hd_error]; unfold Dibujo.svgWidth; do 3 f_equal; lra |].
  split.
  { cbn [last]. unfold Dibujo.svgWidth, Dibujo.springWidth, h.
    f_equal; f_equal; lra. }
  split; [reflexivity |].
  repeat (apply Sorted_cons; [| first [apply HdRel_nil | apply HdRel_cons; lra]]).
  apply Sorted_nil.
Qed.

(** ** Progress bar and frame counter *)

(** X14. Under the same condition on the frames, after any ticks and
    controls of the animation of the trajectory on display, the counter
    "Frame n de N" shows [1 <= n <= N] and the progress is a finite
    percentage above 0 and below [100 + 100/N]; after the tick that stops
    the animation the counter shows [N] and the progress is exactly 100. *)
Theorem contador_en_rango (r : Resultados) (a0 a : Animacion) :
  en_rango r a0 ->
  pasos_animacion velocidades r a0 a ->
  (1 <= Dibujo.numero_de_frame (currentFrame a) <= Z.of_nat (length (posicion r)))%Z
  /\ (exists q,
        Dibujo.progress r (currentFrame a) = Num q
        /\ 0 < q < 100 + 100 / INR (length (posicion r)))
  /\ (currentFrame a + animationSpeed a >= INR (length (posicion r)) ->
      Dibujo.numero_de_frame (currentFrame (animate r a))
      = Z.of_nat (length (posicion r))
      /\ Dibujo.progress r (currentFrame (animate r a)) = Num 100).
Proof.
  intros H0 Hrun.
  destruct (pasos_en_rango r a0 a H0 Hrun) as (_ & (Hf0 & Hf1) & _).
  assert (Hl : 1 <= INR (length (posicion r))).
  { destruct (length (posicion r)) as [|n] eqn:E.
    - cbn [INR] in Hf1. lra.
    - rewrite S_INR. pose proof (pos_INR n). lra. }
  set (L := INR (length (posicion r))) in *.
  assert (HLi : 0 < / L) by (apply Rinv_0_lt_compat; lra).
  assert (HL1 : L * / L = 1) by (apply Rinv_r; lra).
  split; [| split].
  - unfold Dibujo.numero_de_frame, Math_floor.
    destruct (base_Int_part (currentFrame a + 1)) as [Hup Hlow].
    split.
    + assert (H : IZR 0 < IZR (Int_part (currentFrame a + 1))) by lra.
      apply lt_IZR in H. lia.
    + assert (H : IZR (Int_part (currentFrame a + 1))
                  < IZR (Z.of_nat (length (posicion r)) + 1)).
      { rewrite plus_IZR, <- INR_IZR_INZ. fold L. lra. }
      apply lt_IZR in H. lia.
  - unfold Dibujo.progress. fold L. cbn [ndiv].
    destruct (Req_dec_T L 0) as [E|_]; [lra |].
    cbn [nmul]. eexists. split; [reflexivity |].
    unfold Rdiv. split; nra.
  - intros Hge. rewrite (animate_fin r a Hge). cbn [currentFrame]. fold L.
    split.
    + unfold Dibujo.numero_de_frame.
      replace (L - 1 + 1) with (IZR (Z.of_nat (length (posicion r))))
        by (unfold L; rewrite INR_IZR_INZ; ring).
      apply Math_floor_IZR.
    + unfold Dibujo.progress. fold L. cbn [ndiv].
      destruct (Req_dec_T L 0) as [E|_]; [lra |].
      cbn [nmul]. f_equal. field. lra.
Qed.

Lemma contador_en_rango_witness :
  (1 <= Dibujo.numero_de_frame
          (currentFrame (handleAnimationPlayPause animacion_inicial))
   <= Z.of_nat (length (posicion resultados_iniciales)))%Z.
Proof.
  destruct pasos_tras_play as (H0 & Hrun).
  exact (proj1 (contador_en_rango resultados_iniciales animacion_inicial
                  (handleAnimationPlayPause animacion_inicial) H0 Hrun)).
Defined.

(** ** A new trajectory under a running animation *)

(** X15. A new trajectory does not reset the frame, which can lie beyond its
    end; the next tick brings the frame back into [0, length): from a frame
    at or beyond the end it moves to the last sample and pauses. *)
Theorem reemplazo_trayectoria (r r' : Resultados) (a : Animacion) :
  (1 <= length (posicion r))%nat ->
  (1 <= length (posicion r'))%nat ->
  alcanzable r a ->
  isPlaying a = true ->
  0 <= currentFrame (animate r' a) < INR (length (posicion r'))
  /\ (INR (length (posicion r')) <= currentFrame a ->
      currentFrame (animate r' a) = INR (length (posicion r')) - 1
      /\ isPlaying (animate r' a) = false).
Proof.
  intros Hlen Hlen' Ha Hplay.
  destruct (alcanzable_invariante velocidades r velocidades_positivas Hlen a Ha)
    as (Hs & Hf0 & _).
  assert (Hl : 1 <= INR (length (posicion r'))) by (apply (le_INR 1); exact Hlen').
  split.
  - destruct (Rlt_le_dec (currentFrame a + animationSpeed a)
                         (INR (length (posicion r')))) as [Hlt|Hge].
    + rewrite (animate_avanza r' a Hlt). cbn. lra.
    + rewrite (animate_fin r' a (Rle_ge _ _ Hge)). cbn. lra.
  - intros Hfuera.
    rewrite (animate_fin r' a) by lra. cbn. rewrite Hplay. split; reflexivity.
Qed.

(** ** Requests one after the other *)

(** The validation reads the parameters only and leaves the state alone. *)
Lemma validar_independiente (p : Parametros) (st st' : Estado) :
  fst (validar p st) = fst (validar p st') /\ snd (validar p st) = st.
Proof.
  unfold validar, Handler.bind, Handler.ret, Handler.throw.
  destruct (Rle_dec (masa p) 0); [split; reflexivity |].
  destruct (Rle_dec (constante_resorte p) 0); [split; reflexivity |].
  destruct (Rlt_dec (constante_amortiguamiento p) 0); split; reflexivity.
Qed.

(** The state after a request, by the outcome of the validation. *)
Lemma ejecutar_forma (st : Estado) :
  ejecutar st
  = match fst (validar (st_parametros st) st) with
    | inl msg =>
        mkEstado (st_parametros st) (st_control st) (escalaGrafico st)
                 (resultados st) false (o_bien msg "Error en la simulación")
    | inr _ =>
        let data := simulateSystem (st_parametros st) (st_control st) in
        mkEstado (st_parametros st) (st_control st)
                 (if auto_escala (escalaGrafico st)
                  then autoEscala (posicion data) (escalaGrafico st)
                  else escalaGrafico st)
                 (Some data) false ""
    end.
Proof.
  unfold ejecutar, ejecutarSimulacion, try_catch_finally, finally, Handler.bind,
    setLoading, setError, validar, Handler.ret, Handler.throw,
    setResultados, setEscalaGrafico.
  cbn [snd fst].
  destruct (Rle_dec (masa (st_parametros st)) 0); [reflexivity |].
  destruct (Rle_dec (constante_resorte (st_parametros st)) 0); [reflexivity |].
  destruct (Rlt_dec (constante_amortiguamiento (st_parametros st)) 0); [reflexivity |].
  cbv zeta. destruct (auto_escala (escalaGrafico st)); reflexivity.
Qed.

(** X16. A second request in a row changes nothing: running the simulation
    twice leaves the state of running it once, whether the parameters are
    accepted or rejected. *)
Theorem ejecutar_idempotente (st : Estado) :
  ejecutar (ejecutar st) = ejecutar st.
Proof.
  rewrite (ejecutar_forma (ejecutar st)).
  rewrite (ejecutar_forma st).
  destruct (fst (validar (st_parametros st) st)) as [msg|[]] eqn:E.
  - cbn [st_parametros st_control escalaGrafico resultados].
    destruct (validar_independiente (st_parametros st)
                (mkEstado (st_parametros st) (st_control st) (escalaGrafico st)
                          (resultados st) false (o_bien msg "Error en la simulación"))
                st) as (-> & _).
    rewrite E. reflexivity.
  - cbv zeta. cbn [st_parametros st_control escalaGrafico resultados].
    match goal with
    | |- context [fst (validar _ ?s)] =>
        destruct (validar_independiente (st_parametros st) s st) as (-> & _)
    end.
    rewrite E.
    destruct (auto_escala (escalaGrafico st)) eqn:Eauto.
    + cbn [autoEscala auto_escala]. rewrite Eauto. reflexivity.
    + rewrite Eauto. reflexivity.
Qed.

(** ** Requests to the remote service *)

Section Remoto.

Variable API_BASE_URL : string.
Variable salud : bool.
Variable simulate : Parametros -> ControlSimulacion -> string + Resultados.

(** The state after a request that found another status and got [data]. *)
Lemma app_ejecutar_datos (st : EstadoApp) (data : Resultados) :
  backendStatus st <> offline ->
  simulate (st_parametros (celdas st)) (st_control (celdas st)) = inr data ->
  App.ejecutar API_BASE_URL salud simulate st
  = mkEstadoApp
      (mkEstado (st_parametros (celdas st)) (st_control (celdas st))
                (if auto_escala (escalaGrafico (celdas st))
                 then autoEscala (posicion data) (escalaGrafico (celdas st))
                 else escalaGrafico (celdas st))
                (Some data) false "")
      online.
Proof.
  intros Hon Hdata.
  assert (Hes : App.es_offline (backendStatus st) = false)
    by (destruct (backendStatus st); [reflexivity | reflexivity | contradiction]).
  unfold App.ejecutar, App.ejecutarSimulacion. rewrite Hes, Hdata.
  destruct (auto_escala (escalaGrafico (celdas st))); reflexivity.
Qed.

(** X20. The remote page and the local page agree: when the status is not
    'offline', the parameters are valid and the service returns what
    [simulateSystem] computes, the request of [App.js] leaves the cells that
    the request of [points.js] leaves, and the status 'online'. *)
Theorem app_coincide_con_local (st : EstadoApp) :
  backendStatus st <> offline ->
  parametros_validos (st_parametros (celdas st)) ->
  simulate (st_parametros (celdas st)) (st_control (celdas st))
  = inr (simulateSystem (st_parametros (celdas st)) (st_control (celdas st))) ->
  let st' := App.ejecutar API_BASE_URL salud simulate st in
  celdas st' = ejecutar (celdas st) /\ backendStatus st' = online.
Proof.
  intros Hon Hv Hdata. cbv zeta.
  rewrite (app_ejecutar_datos st _ Hon Hdata).
  rewrite (ejecutar_valido (celdas st) Hv).
  split; reflexivity.
Qed.

End Remoto.

(** ** The theorems above on the initial values of the page *)

Lemma resultados_cortos_longitud :
  length (posicion resultados_cortos) = 101%nat.
Proof.
  unfold resultados_cortos.
  destruct (simulateSystem_length parametros_iniciales control_corto) as (_ & Hlen & _).
  rewrite Hlen. unfold muestras. cbn [stop_time step_time control_corto].
  replace ((1 - 0) / 0.01) with (IZR 100) by lra.
  rewrite Math_floor_IZR. reflexivity.
Qed.

(** After "play" and 200 ticks at 1x the initial trajectory is at frame 200
    and still playing. *)
Lemma animacion_en_200_estado :
  alcanzable resultados_iniciales animacion_en_200
  /\ isPlaying animacion_en_200 = true
  /\ currentFrame animacion_en_200 = 200.
Proof.
  assert (Hlen : INR (length (posicion resultados_iniciales)) = 1001).
  { rewrite resultados_iniciales_longitud, INR_IZR_INZ. reflexivity. }
  assert (Hn : INR 200 = 200) by (rewrite INR_IZR_INZ; reflexivity).
  destruct (ticks_avanza velocidades resultados_iniciales 200
              (handleAnimationPlayPause animacion_inicial))
    as (Hf & _ & Hp & Hr).
  - reflexivity.
  - cbn [animationSpeed handleAnimationPlayPause animacion_inicial]. lra.
  - rewrite Hlen, Hn.
    cbn [currentFrame animationSpeed handleAnimationPlayPause animacion_inicial]. lra.
  - unfold animacion_en_200. split; [| split; [exact Hp |]].
    + apply Hr. apply (alcanzable_paso _ _ animacion_inicial);
        [apply alcanzable_inicial | apply paso_play_pause].
    + rewrite Hf, Hn.
      cbn [currentFrame animationSpeed handleAnimationPlayPause animacion_inicial]. lra.
Qed.

Lemma reemplazo_trayectoria_witness :
  currentFrame (animate resultados_cortos animacion_en_200) = 100
  /\ isPlaying (animate resultados_cortos animacion_en_200) = false.
Proof.
  destruct animacion_en_200_estado as (Ha & Hp & Hf).
  assert (Hlen : INR (length (posicion resultados_cortos)) = 101).
  { rewrite resultados_cortos_longitud, INR_IZR_INZ. reflexivity. }
  destruct (reemplazo_trayectoria resultados_iniciales resultados_cortos animacion_en_200)
    as (_ & Hfuera).
  - rewrite resultados_iniciales_longitud. lia.
  - rewrite resultados_cortos_longitud. lia.
  - exact Ha.
  - exact Hp.
  - destruct Hfuera as (H1 & H2); [rewrite Hlen, Hf; lra |].
    split; [rewrite H1, Hlen; lra | exact H2].
Defined.

Lemma app_coincide_con_local_witness :
  celdas (App.ejecutar url_local true servicio_local app_en_linea)
  = ejecutar (celdas app_en_linea).
Proof.
  refine (proj1 (app_coincide_con_local url_local true servicio_local app_en_linea _ _ _)).
  - discriminate.
  - unfold parametros_validos. simpl. lra.
  - reflexivity.
Defined.

(** * The generator and the handler on binary64 numbers: properties *)

(** ** Signs of differences and quotients of doubles *)

Lemma iter_pos_shr_1 (p : positive) :
  forall mrs, (0 <= shr_m mrs)%Z -> (0 <= shr_m (SpecFloat.iter_pos shr_1 p mrs))%Z.
Proof.
  assert (H1 : forall mrs, (0 <= shr_m mrs)%Z -> (0 <= shr_m (shr_1 mrs))%Z).
  { intros [m r s] H. cbn in *. destruct m as [|[q|q|]|[q|q|]]; cbn; lia. }
  induction p as [p IH|p IH|]; intros mrs H; cbn.
  - apply IH, IH, H1, H.
  - apply IH, IH, H.
  - apply H1, H.
Qed.

Lemma shr_fexp_no_negativo (m e : Z) (l : location) :
  (0 <= m)%Z -> (0 <= shr_m (fst (shr_fexp prec emax m e l)))%Z.
Proof.
  intros Hm. unfold shr_fexp, shr.
  assert (H0 : (0 <= shr_m (shr_record_of_loc m l))%Z)
    by (destruct l as [|[]]; exact Hm).
  destruct (SpecFloat.fexp prec emax (Zdigits2 m + e) - e)%Z; cbn [fst]; try exact H0.
  now apply iter_pos_shr_1.
Qed.

(** Rounding a non-negative mantissa keeps the sign it is given. *)
Lemma binary_round_aux_signo (s : bool) (m e : Z) (l : location) :
  (0 <= m)%Z -> B64.de_signo s (binary_round_aux prec emax s m e l).
Proof.
  intros Hm. unfold binary_round_aux.
  pose proof (shr_fexp_no_negativo m e l Hm) as H1.
  destruct (shr_fexp prec emax m e l) as [mrs' e'] eqn:E1. cbn [fst] in H1.
  assert (H2 : (0 <= round_nearest_even (shr_m mrs') (loc_of_shr_record mrs'))%Z).
  { unfold round_nearest_even. destruct (loc_of_shr_record mrs') as [|[]];
      try destruct (Z.even (shr_m mrs')); lia. }
  pose proof (shr_fexp_no_negativo _ e' loc_Exact H2) as H3.
  destruct (shr_fexp prec emax _ e' loc_Exact) as [mrs'' e''] eqn:E2. cbn [fst] in H3.
  destruct (shr_m mrs'') as [|q|q]; [reflexivity | | lia].
  destruct (e'' <=? emax - prec)%Z; reflexivity.
Qed.

Lemma digits2_pos_cotas (m : positive) :
  (2 ^ (Zpos (digits2_pos m) - 1) <= Zpos m < 2 ^ Zpos (digits2_pos m))%Z.
Proof.
  induction m as [m IH|m IH|]; cbn [digits2_pos].
  - rewrite Pos2Z.inj_succ.
    replace (Z.succ (Zpos (digits2_pos m)) - 1)%Z with (Z.succ (Zpos (digits2_pos m) - 1))%Z by lia.
    rewrite !Z.pow_succ_r by lia. lia.
  - rewrite Pos2Z.inj_succ.
    replace (Z.succ (Zpos (digits2_pos m)) - 1)%Z with (Z.succ (Zpos (digits2_pos m) - 1))%Z by lia.
    rewrite !Z.pow_succ_r by lia. lia.
  - cbn. lia.
Qed.

Lemma iter_xO_potencia (m d : positive) :
  Zpos (Pos.iter xO m d) = (Zpos m * 2 ^ Zpos d)%Z.
Proof.
  induction d as [|d IH] using Pos.peano_ind.
  - cbn. lia.
  - rewrite Pos.iter_succ, Pos2Z.inj_xO, IH, Pos2Z.inj_succ, Z.pow_succ_r by lia. lia.
Qed.

(** What validity says of a finite double: at most 53 digits, an exponent not
    below -1074, and exactly 53 digits above that exponent. *)
Lemma valido_finito (s : bool) (m : positive) (e : Z) :
  valid_binary (S754_finite s m e) = true ->
  (Zpos (digits2_pos m) <= 53 /\ -1074 <= e
   /\ (-1074 < e -> Zpos (digits2_pos m) = 53))%Z.
Proof.
  cbn [valid_binary]. unfold bounded, canonical_mantissa.
  intros H. apply andb_prop in H. destruct H as [H _].
  apply Z.eqb_eq in H. unfold SpecFloat.fexp, SpecFloat.emin in H.
  unfold emax, prec in H. lia.
Qed.

(** The aligned mantissa of [shl_align]. *)
Lemma shl_align_min (m : positive) (e e' : Z) :
  (e' <= e)%Z ->
  Zpos (fst (shl_align m e e')) = (Zpos m * 2 ^ (e - e'))%Z.
Proof.
  intros H. unfold shl_align.
  destruct (e' - e)%Z as [|d|d] eqn:E; cbn [fst].
  - replace (e - e')%Z with 0%Z by lia. lia.
  - lia.
  - rewrite iter_xO_potencia. do 2 f_equal. lia.
Qed.

(** Between two valid positive doubles, the one with the larger exponent
    has the larger aligned mantissa. *)
Lemma mantisa_alineada_mayor (s1 s2 : bool) (m1 m2 : positive) (e1 e2 : Z) :
  valid_binary (S754_finite s1 m1 e1) = true ->
  valid_binary (S754_finite s2 m2 e2) = true ->
  (e1 < e2)%Z ->
  (Zpos m1 < Zpos m2 * 2 ^ (e2 - e1))%Z.
Proof.
  intros H1 H2 He.
  destruct (valido_finito _ _ _ H1) as (Hd1 & Hmin1 & _).
  destruct (valido_finito _ _ _ H2) as (_ & _ & Hd2).
  specialize (Hd2 ltac:(lia)).
  pose proof (digits2_pos_cotas m1) as B1.
  pose proof (digits2_pos_cotas m2) as B2.
  rewrite Hd2 in B2.
  assert (Zpos m1 < 2 ^ 53)%Z.
  { eapply Z.lt_le_trans; [apply B1 | apply Z.pow_le_mono_r; lia]. }
  assert (2 ^ 1 <= 2 ^ (e2 - e1))%Z by (apply Z.pow_le_mono_r; lia).
  change (2 ^ (53 - 1))%Z with 4503599627370496%Z in B2.
  change (2 ^ 53)%Z with 9007199254740992%Z in *.
  change (2 ^ 1)%Z with 2%Z in *.
  nia.
Qed.

(** The difference of two valid doubles is of positive sign (a positive
    number, zero or plus infinity) when the first is the larger. *)
Lemma SFsub_signo (x y : spec_float) :
  valid_binary x = true -> valid_binary y = true ->
  SFltb y x = true ->
  B64.de_signo false (SF64sub x y).
Proof.
  intros Hx Hy Hlt. unfold SFltb in Hlt.
  destruct x as [sx|sx| |sx mx ex], y as [sy|sy| |sy my ey];
    cbn [SFcompare] in Hlt; try discriminate Hlt;
    unfold SF64sub; cbn [SFsub].
  - (* zero - inf *) destruct sy; [reflexivity | discriminate Hlt].
  - (* zero - finite *) destruct sy; [reflexivity | discriminate Hlt].
  - (* inf - zero *) destruct sx; [discriminate Hlt | reflexivity].
  - (* inf - inf *) destruct sy, sx; try discriminate Hlt; reflexivity.
  - (* inf - finite *) destruct sx; [discriminate Hlt | reflexivity].
  - (* finite - zero *) destruct sx; [discriminate Hlt | reflexivity].
  - (* finite - inf *) destruct sy; [reflexivity | discriminate Hlt].
  - (* finite - finite *)
    set (ez := Z.min ex ey).
    assert (HX : Zpos (fst (shl_align mx ex ez)) = (Zpos mx * 2 ^ (ex - ez))%Z)
      by (apply shl_align_min; unfold ez; lia).
    assert (HY : Zpos (fst (shl_align my ey ez)) = (Zpos my * 2 ^ (ey - ez))%Z)
      by (apply shl_align_min; unfold ez; lia).
    assert (Hpos :
      (0 < cond_Zopp sx (Zpos (fst (shl_align mx ex ez)))
           - cond_Zopp sy (Zpos (fst (shl_align my ey ez))))%Z).
    { rewrite HX, HY.
      assert (0 < 2 ^ (ex - ez))%Z by (apply Z.pow_pos_nonneg; unfold ez; lia).
      assert (0 < 2 ^ (ey - ez))%Z by (apply Z.pow_pos_nonneg; unfold ez; lia).
      destruct sy, sx; cbn [cond_Zopp]; try discriminate Hlt.
      - (* both negative: |y| > |x| *)
        destruct (Z.compare_spec ey ex) as [E|E|E]; try discriminate Hlt.
        + subst ey. replace (ex - ez)%Z with 0%Z by (unfold ez; lia).
          rewrite Pos.compare_cont_spec in Hlt. cbn in Hlt.
          destruct (Pos.compare_spec my mx); try discriminate Hlt.
          change (2 ^ 0)%Z with 1%Z. lia.
        + pose proof (mantisa_alineada_mayor _ _ _ _ _ _ Hx Hy E).
          replace (ex - ez)%Z with 0%Z by (unfold ez; lia).
          replace (ey - ez)%Z with (ey - ex)%Z by (unfold ez; lia).
          change (2 ^ 0)%Z with 1%Z. lia.
      - (* y negative, x positive *) nia.
      - (* both positive: y < x *)
        destruct (Z.compare_spec ey ex) as [E|E|E]; try discriminate Hlt.
        + subst ey. replace (ex - ez)%Z with 0%Z by (unfold ez; lia).
          rewrite Pos.compare_cont_spec in Hlt. cbn in Hlt.
          destruct (Pos.compare_spec my mx); try discriminate Hlt.
          change (2 ^ 0)%Z with 1%Z. lia.
        + pose proof (mantisa_alineada_mayor _ _ _ _ _ _ Hy Hx E).
          replace (ey - ez)%Z with 0%Z by (unfold ez; lia).
          replace (ex - ez)%Z with (ex - ey)%Z by (unfold ez; lia).
          change (2 ^ 0)%Z with 1%Z. lia. }
    fold ez.
    destruct (cond_Zopp sx (Zpos (fst (shl_align mx ex ez)))
              - cond_Zopp sy (Zpos (fst (shl_align my ey ez))))%Z as [|q|q] eqn:EM;
      try lia.
    cbn [binary_normalize]. unfold binary_round.
    match goal with
    | |- context [shl_align ?a ?b ?c] => destruct (shl_align a b c) as [mz ez']
    end.
    apply binary_round_aux_signo. lia.
Qed.

(** A quotient of a double of positive sign by a positive finite double is of
    positive sign. *)
Lemma SFdiv_signo (x : spec_float) (m : positive) (e : Z) :
  B64.de_signo false x ->
  B64.de_signo false (SF64div x (S754_finite false m e)).
Proof.
  intros Hx. unfold SF64div.
  destruct x as [sx|sx| |sx mx ex]; cbn [SFdiv B64.de_signo] in *; try contradiction.
  - rewrite Hx. reflexivity.
  - rewrite Hx. reflexivity.
  - rewrite Hx. cbn [xorb].
    unfold SFdiv_core_binary.
    match goal with
    | |- context [Z.div_eucl ?a ?b] =>
        pose proof (Z_div_mod a b ltac:(lia)) as Hdm;
        assert (Ha : (0 <= a)%Z);
        [| destruct (Z.div_eucl a b) as [q r] eqn:Eqr]
    end.
    { destruct (ex - e - _)%Z; [lia | | lia].
      apply Z.shiftl_nonneg. lia. }
    apply binary_round_aux_signo.
    destruct Hdm as [Hdm Hr]. nia.
Qed.

(** The integer part of a double of positive sign. *)
Lemma piso_sf_signo (x : spec_float) :
  B64.de_signo false x ->
  B64.piso_sf x = B64.MasInfinito \/ exists z, B64.piso_sf x = B64.Finito z /\ (0 <= z)%Z.
Proof.
  intros Hx.
  destruct x as [sx|sx| |sx mx ex]; cbn [B64.piso_sf B64.de_signo] in *; try contradiction.
  - right. exists 0%Z. split; [reflexivity | lia].
  - subst sx. now left.
  - subst sx. right. eexists. split; [reflexivity |]. cbn [cond_Zopp].
    destruct (Z.leb_spec 0 ex).
    + apply Z.mul_nonneg_nonneg; [lia | apply Z.pow_nonneg; lia].
    + apply Z.div_pos; [lia | apply Z.pow_pos_nonneg; lia].
Qed.

(** [Math.floor((stop - start) / 0.01)] is not negative when [start < stop]. *)
Lemma pasos_no_negativos (start stop : float) :
  (start <? stop)%float = true ->
  B64.Math_floor ((stop - start) / 0.01)%float = B64.MasInfinito
  \/ exists z, B64.Math_floor ((stop - start) / 0.01)%float = B64.Finito z /\ (0 <= z)%Z.
Proof.
  intros Hlt. unfold B64.Math_floor.
  apply piso_sf_signo.
  rewrite FloatAxioms.div_spec, FloatAxioms.sub_spec.
  change (Prim2SF 0.01) with (S754_finite false 5764607523034235 (-59)).
  apply SFdiv_signo, SFsub_signo; try apply FloatAxioms.Prim2SF_valid.
  now rewrite <- FloatAxioms.ltb_spec.
Qed.

(** ** Comparisons of doubles *)

Lemma SFcompare_antisim (x y : spec_float) :
  SFcompare y x = option_map CompOpp (SFcompare x y).
Proof.
  destruct x as [sx|sx| |sx mx ex], y as [sy|sy| |sy my ey];
    cbn [SFcompare option_map]; try reflexivity;
    try (destruct sx; reflexivity); try (destruct sy; reflexivity);
    try (destruct sx, sy; reflexivity).
  assert (Hc : Pos.compare_cont Eq my mx = CompOpp (Pos.compare_cont Eq mx my))
    by exact (Pos.compare_antisym mx my).
  rewrite (Z.compare_antisym ex ey), Hc.
  destruct sx, sy, (ex ?= ey)%Z; cbn [CompOpp]; try reflexivity.
Qed.

(** [x < y] excludes [y <= x] and [x == y]; [x <= y] excludes [y < x]. *)
Lemma ltb_no_leb (x y : float) :
  (x <? y)%float = true -> (y <=? x)%float = false.
Proof.
  rewrite FloatAxioms.ltb_spec, FloatAxioms.leb_spec. unfold SFltb, SFleb.
  rewrite (SFcompare_antisim (Prim2SF x) (Prim2SF y)).
  destruct (SFcompare (Prim2SF x) (Prim2SF y)) as [[]|]; cbn; congruence.
Qed.

Lemma leb_no_ltb (x y : float) :
  (x <=? y)%float = true -> (y <? x)%float = false.
Proof.
  rewrite FloatAxioms.ltb_spec, FloatAxioms.leb_spec. unfold SFltb, SFleb.
  rewrite (SFcompare_antisim (Prim2SF x) (Prim2SF y)).
  destruct (SFcompare (Prim2SF x) (Prim2SF y)) as [[]|]; cbn; congruence.
Qed.

Lemma ltb_no_eqb (x y : float) :
  (x <? y)%float = true -> (x =? y)%float = false.
Proof.
  rewrite FloatAxioms.ltb_spec, FloatAxioms.eqb_spec. unfold SFltb, SFeqb.
  destruct (SFcompare (Prim2SF x) (Prim2SF y)) as [[]|]; cbn; congruence.
Qed.

(** Neither [x < 1] nor [x == 1]: then [1 < x], or [x] is NaN. *)
Lemma ni_menor_ni_igual (x : float) :
  (x <? 1)%float = false -> (x =? 1)%float = false ->
  (1 <? x)%float = true \/ B64.es_NaN x = true.
Proof.
  unfold B64.es_NaN. rewrite !FloatAxioms.ltb_spec, !FloatAxioms.eqb_spec. unfold SFltb, SFeqb.
  rewrite (SFcompare_antisim (Prim2SF x) (Prim2SF 1)).
  change (Prim2SF 1) with (S754_finite false 4503599627370496 (-52)).
  destruct (SFcompare (Prim2SF x) (S754_finite false 4503599627370496 (-52)))
    as [[]|] eqn:E; cbn [option_map CompOpp]; try discriminate.
  - intros _ _. now left.
  - intros _ _. right.
    destruct (Prim2SF x) as [s|s| |s m e]; cbn [SFcompare] in E |- *;
      try discriminate E; try reflexivity.
Qed.

Lemma SFcompare_refl (x : spec_float) :
  x <> S754_nan -> SFcompare x x = Some Eq.
Proof.
  destruct x as [s|s| |s m e]; cbn [SFcompare]; intros H;
    try reflexivity; try contradiction.
  - destruct s; reflexivity.
  - rewrite Z.compare_refl.
    change (Pos.compare_cont Eq m m) with (Pos.compare m m).
    rewrite Pos.compare_refl. destruct s; reflexivity.
Qed.

Lemma NaN_no_compara (x : float) :
  B64.es_NaN x = true ->
  (x <? 1)%float = false /\ (x =? 1)%float = false /\ (1 <? x)%float = false.
Proof.
  unfold B64.es_NaN. rewrite !FloatAxioms.ltb_spec, !FloatAxioms.eqb_spec. unfold SFltb, SFeqb.
  destruct (Prim2SF x) as [s|s| |s m e] eqn:E.
  - rewrite SFcompare_refl by discriminate. discriminate.
  - rewrite SFcompare_refl by discriminate. discriminate.
  - intros _. rewrite (SFcompare_antisim S754_nan (Prim2SF 1)).
    cbn [SFcompare option_map]. repeat split.
  - rewrite SFcompare_refl by discriminate. discriminate.
Qed.

(** ** The floor of a double and the floor of its value *)

Lemma potencia_IZR (p : positive) : 2 ^ Pos.to_nat p = IZR (2 ^ Zpos p).
Proof.
  rewrite pow_IZR. f_equal. now rewrite positive_nat_Z.
Qed.

(** The integer part of a quotient of integers is the quotient of [Z]. *)
Lemma Math_floor_cociente (a b : Z) :
  (0 < b)%Z -> Math_floor (IZR a / IZR b) = (a / b)%Z.
Proof.
  intros Hb. unfold Math_floor. symmetry. apply Int_part_spec.
  pose proof (Z_div_mod_eq_full a b) as Hdm.
  pose proof (Z.mod_pos_bound a b Hb) as Hr.
  assert (HB : 0 < IZR b) by (apply (IZR_lt 0); exact Hb).
  assert (Ha : IZR a = IZR b * IZR (a / b) + IZR (a mod b)).
  { rewrite <- mult_IZR, <- plus_IZR. now f_equal. }
  assert (H0 : 0 <= IZR (a mod b)) by (apply (IZR_le 0); lia).
  assert (H1 : IZR (a mod b) < IZR b) by (apply IZR_lt; lia).
  assert (E : IZR a / IZR b = IZR (a / b) + IZR (a mod b) / IZR b).
  { rewrite Ha. field. lra. }
  rewrite E.
  assert (0 <= IZR (a mod b) / IZR b < 1).
  { split.
    - apply Rmult_le_pos; [exact H0 | apply Rlt_le, Rinv_0_lt_compat; exact HB].
    - apply (Rmult_lt_reg_r (IZR b)); [exact HB |].
      unfold Rdiv. rewrite Rmult_assoc, Rinv_l by lra. lra. }
  lra.
Qed.

(** [Math.floor] of a finite double is the integer part of its value. *)
Lemma b64_Math_floor_valor (x : float) :
  B64.finito x = true ->
  B64.Math_floor x = B64.Finito (Math_floor (B64.valor x)).
Proof.
  unfold B64.finito, B64.Math_floor, B64.valor.
  destruct (Prim2SF x) as [s|s| |s m e]; try discriminate; intros _;
    cbn [B64.piso_sf B64.valor_sf]; f_equal.
  - symmetry. exact (Math_floor_IZR 0).
  - destruct e as [|p|p].
    + cbn [Z.leb Z.compare powerRZ]. rewrite Rmult_1_r, Z.pow_0_r, Z.mul_1_r.
      symmetry. apply Math_floor_IZR.
    + cbn [Z.leb Z.compare powerRZ].
      rewrite potencia_IZR, <- mult_IZR.
      symmetry. apply Math_floor_IZR.
    + cbn [Z.leb Z.compare powerRZ Z.opp].
      rewrite potencia_IZR.
      symmetry. apply Math_floor_cociente.
      apply Z.pow_pos_nonneg; lia.
Qed.

(** The real value of a double from its mantissa and its exponent. *)
Lemma b64_valor_finito (x : float) (s : bool) (m : positive) (e : Z) :
  Prim2SF x = S754_finite s m e ->
  B64.valor x = IZR (cond_Zopp s (Zpos m)) * powerRZ 2 e.
Proof. intros H. unfold B64.valor. rewrite H. reflexivity. Qed.

Lemma b64_valor_1 : B64.valor 1 = 1.
Proof.
  rewrite (b64_valor_finito 1 false 4503599627370496 (-52)) by reflexivity.
  cbn [cond_Zopp]. change (-52)%Z with (- Z.of_nat 52)%Z.
  rewrite powerRZ_neg', <- pow_powerRZ, pow_IZR by lra.
  change (2 ^ Z.of_nat 52)%Z with 4503599627370496%Z.
  field.
Qed.

Lemma b64_valor_2 : B64.valor 2 = 2.
Proof.
  rewrite (b64_valor_finito 2 false 4503599627370496 (-51)) by reflexivity.
  cbn [cond_Zopp]. change (-51)%Z with (- Z.of_nat 51)%Z.
  rewrite powerRZ_neg', <- pow_powerRZ, pow_IZR by lra.
  change (2 ^ Z.of_nat 51)%Z with 2251799813685248%Z.
  field.
Qed.

(** ** The loop and the result of [simulateSystem] *)

Section LoopB64.

Variable p : B64.Parametros.
Variable c : B64.ControlSimulacion.
Variables omega zeta dt : float.

Let t_de (j : Z) : R := B64.valor (B64.step_time c) + IZR j * B64.valor dt.

(** With the iterations of a loop that ends as fuel, the loop is the fold
    of its body over the counter values. *)
Lemma b64_for_loop_fold (z : Z) (fuel : nat) :
  forall i pts,
    fuel = Z.to_nat (z + 1 - i) ->
    B64.for_loop p c omega zeta dt (B64.Finito z) fuel i pts
    = fold_left (fun acc j => B64.paso p c omega zeta dt j acc) (indices i fuel) pts.
Proof.
  induction fuel as [|fuel IH]; intros i pts Hf; simpl; [reflexivity|].
  destruct (Z.leb_spec i z) as [Hle|Hgt]; [|lia].
  apply IH. lia.
Qed.

Lemma b64_for_loop_vueltas (steps : B64.Entero) (pts : Puntos) :
  B64.for_loop p c omega zeta dt steps (B64.vueltas steps) 0 pts
  = fold_left (fun acc j => B64.paso p c omega zeta dt j acc)
              (indices 0 (B64.vueltas steps)) pts.
Proof.
  destruct steps as [z| | |]; try reflexivity.
  apply b64_for_loop_fold. cbn [B64.vueltas]. f_equal. lia.
Qed.

(** More fuel changes nothing when [steps] is not [Infinity]: the guard
    [i <= steps] stops the loop. *)
Lemma b64_for_loop_fuel_enough (z : Z) (fuel : nat) :
  forall i pts,
    (z + 1 - i <= Z.of_nat fuel)%Z ->
    B64.for_loop p c omega zeta dt (B64.Finito z) fuel i pts
    = B64.for_loop p c omega zeta dt (B64.Finito z) (Z.to_nat (z + 1 - i)) i pts.
Proof.
  induction fuel as [|fuel IH]; intros i pts Hf.
  - replace (Z.to_nat (z + 1 - i)) with O by lia. reflexivity.
  - cbn [B64.for_loop B64.menor_igual]. destruct (Z.leb_spec i z) as [Hle|Hgt].
    + rewrite IH by lia.
      replace (Z.to_nat (z + 1 - i)) with (S (Z.to_nat (z + 1 - (i + 1)))) by lia.
      cbn [B64.for_loop B64.menor_igual].
      destruct (Z.leb_spec i z); [reflexivity | lia].
    + replace (Z.to_nat (z + 1 - i)) with O by lia. reflexivity.
Qed.

Lemma b64_for_loop_termina (steps : B64.Entero) (fuel : nat) (pts : Puntos) :
  steps <> B64.MasInfinito ->
  (B64.vueltas steps <= fuel)%nat ->
  B64.for_loop p c omega zeta dt steps fuel 0 pts
  = B64.for_loop p c omega zeta dt steps (B64.vueltas steps) 0 pts.
Proof.
  intros Hs Hf. destruct steps as [z| | |]; cbn [B64.vueltas] in *.
  - rewrite b64_for_loop_fuel_enough by lia. f_equal. lia.
  - contradiction.
  - destruct fuel; reflexivity.
  - destruct fuel; reflexivity.
Qed.

(** The guard [i <= Infinity] never fails: the loop uses up any fuel. *)
Lemma b64_for_loop_sin_fin (fuel : nat) :
  forall i pts,
    length (timePoints
              (B64.for_loop p c omega zeta dt B64.MasInfinito fuel i pts))
    = (length (timePoints pts) + fuel)%nat.
Proof.
  induction fuel as [|fuel IH]; intros i pts; cbn [B64.for_loop B64.menor_igual].
  - lia.
  - rewrite IH. unfold B64.paso.
    destruct (B64.muestra p c omega zeta _) as [[x v] a].
    cbn [timePoints]. unfold push. rewrite length_app. simpl. lia.
Qed.

Lemma b64_fold_paso (js : list Z) :
  forall pts,
    let r := fold_left (fun acc j => B64.paso p c omega zeta dt j acc) js pts in
    timePoints r = timePoints pts ++ map t_de js
    /\ positionPoints r
       = positionPoints pts
         ++ map (fun j => fst (fst (B64.muestra p c omega zeta (t_de j)))) js
    /\ velocityPoints r
       = velocityPoints pts
         ++ map (fun j => snd (fst (B64.muestra p c omega zeta (t_de j)))) js
    /\ accelerationPoints r
       = accelerationPoints pts
         ++ map (fun j => snd (B64.muestra p c omega zeta (t_de j))) js.
Proof.
  induction js as [|j js IH]; intros pts; simpl.
  - now rewrite !app_nil_r.
  - destruct (IH (B64.paso p c omega zeta dt j pts)) as (Ht & Hp & Hv & Ha).
    rewrite Ht, Hp, Hv, Ha. unfold B64.paso, push. fold (t_de j).
    destruct (B64.muestra p c omega zeta (t_de j)) as [[x v] a]. simpl.
    now rewrite <- !app_assoc.
Qed.

End LoopB64.

(** The statistics of four arrays of the same length: a [RangeError] beyond
    the limit of the engine, the extrema within. *)
Lemma b64_estadisticas_de (limite : nat) (mensaje : string) (pts : Puntos) (n : nat) :
  length (positionPoints pts) = n ->
  length (velocityPoints pts) = n ->
  length (accelerationPoints pts) = n ->
  B64.estadisticas_de limite mensaje pts
  = if (limite <? n)%nat then inl mensaje
    else inr {| posicion_maxima := Math_max (positionPoints pts);
                posicion_minima := Math_min (positionPoints pts);
                amplitud :=
                  nsub (Math_max (positionPoints pts)) (Math_min (positionPoints pts));
                velocidad_maxima := Math_max (velocityPoints pts);
                velocidad_minima := Math_min (velocityPoints pts);
                aceleracion_maxima := Math_max (accelerationPoints pts);
                aceleracion_minima := Math_min (accelerationPoints pts) |}.
Proof.
  intros Hp Hv Ha.
  unfold B64.estadisticas_de, B64.Math_max_spread, B64.Math_min_spread.
  rewrite Hp, Hv, Ha.
  destruct (limite <? n)%nat; reflexivity.
Qed.

(** The three ways a call of [simulateSystem] ends, and the object it
    returns: the arrays as maps over the counter values. *)
Lemma b64_simulateSystem_casos (limite : nat) (mensaje : string)
      (p : B64.Parametros) (c : B64.ControlSimulacion) :
  let n := B64.vueltas (B64.pasos c) in
  let t_de := fun j : Z => B64.valor (B64.step_time c) + IZR j * B64.valor 0.01%float in
  let m := fun j : Z => B64.muestra p c (B64.omega p) (B64.zeta p) (t_de j) in
  match B64.simulateSystem limite mensaje p c with
  | B64.NoRetorna => B64.sin_fin (B64.pasos c) = true
  | B64.Lanza msg =>
      msg = mensaje /\ B64.sin_fin (B64.pasos c) = false /\ (limite < n)%nat
  | B64.Retorna r =>
      B64.sin_fin (B64.pasos c) = false /\ (n <= limite)%nat
      /\ B64.tiempo r = map t_de (indices 0 n)
      /\ B64.posicion r = map (fun j => fst (fst (m j))) (indices 0 n)
      /\ B64.velocidad r = map (fun j => snd (fst (m j))) (indices 0 n)
      /\ B64.aceleracion r = map (fun j => snd (m j)) (indices 0 n)
      /\ B64.parametros r
         = {| B64.entrada := p;
              B64.frecuencia_natural := B64.omega p;
              B64.coeficiente_amortiguamiento := B64.zeta p;
              B64.tipo_amortiguamiento :=
                if (B64.zeta p <? 1)%float then "subamortiguado"
                else if (B64.zeta p =? 1)%float then "crítico"
                else "sobreamortiguado";
              B64.beta :=
                (B64.constante_amortiguamiento p / (2 * B64.masa p))%float;
              B64.omega_0 := B64.omega p |}
  end.
Proof.
  cbv zeta. unfold B64.simulateSystem. cbv zeta.
  fold (B64.pasos c) (B64.omega p) (B64.zeta p).
  destruct (B64.sin_fin (B64.pasos c)) eqn:Esf; [reflexivity |].
  rewrite b64_for_loop_vueltas.
  pose proof (b64_fold_paso p c (B64.omega p) (B64.zeta p) 0.01%float
                (indices 0 (B64.vueltas (B64.pasos c))) puntos_vacios) as H.
  cbv zeta in H. cbn [puntos_vacios timePoints positionPoints velocityPoints
                      accelerationPoints app] in H.
  destruct H as (Ht & Hp & Hv & Ha).
  set (pts := fold_left _ _ puntos_vacios) in *.
  rewrite (b64_estadisticas_de limite mensaje pts (B64.vueltas (B64.pasos c)))
    by (rewrite ?Hp, ?Hv, ?Ha; now rewrite length_map, indices_length).
  destruct (Nat.ltb_spec limite (B64.vueltas (B64.pasos c))) as [Hlt|Hle].
  - repeat split. exact Hlt.
  - cbn [B64.tiempo B64.posicion B64.velocidad B64.aceleracion B64.parametros].
    repeat split; assumption.
Qed.

(** The generator returns when the loop ends and the arrays are within the
    limit of the engine. *)
Lemma b64_simulateSystem_retorna (limite : nat) (mensaje : string)
      (p : B64.Parametros) (c : B64.ControlSimulacion) :
  B64.sin_fin (B64.pasos c) = false ->
  (B64.vueltas (B64.pasos c) <= limite)%nat ->
  exists r, B64.simulateSystem limite mensaje p c = B64.Retorna r.
Proof.
  intros Hsf Hn.
  pose proof (b64_simulateSystem_casos limite mensaje p c) as H. cbv zeta in H.
  destruct (B64.simulateSystem limite mensaje p c) as [r|msg|].
  - now exists r.
  - destruct H as (_ & _ & H). lia.
  - congruence.
Qed.


(** Every sample of a returned object. *)
Lemma b64_simulateSystem_nth (limite : nat) (mensaje : string)
      (p : B64.Parametros) (c : B64.ControlSimulacion) (r : B64.Resultados) (i : nat) :
  B64.simulateSystem limite mensaje p c = B64.Retorna r ->
  (i < B64.vueltas (B64.pasos c))%nat ->
  let m := B64.muestra p c (B64.omega p) (B64.zeta p) (B64.instante c i) in
  nth_error (B64.tiempo r) i = Some (B64.instante c i)
  /\ nth_error (B64.posicion r) i = Some (fst (fst m))
  /\ nth_error (B64.velocidad r) i = Some (snd (fst m))
  /\ nth_error (B64.aceleracion r) i = Some (snd m).
Proof.
  intros Hr Hi. cbv zeta.
  pose proof (b64_simulateSystem_casos limite mensaje p c) as H. cbv zeta in H.
  rewrite Hr in H. destruct H as (_ & _ & Ht & Hp & Hv & Ha & _).
  rewrite Ht, Hp, Hv, Ha.
  rewrite !nth_error_map, (indices_nth _ 0 i Hi). cbn [option_map].
  unfold B64.instante. rewrite INR_IZR_INZ.
  replace (0 + Z.of_nat i)%Z with (Z.of_nat i) by lia.
  repeat split; reflexivity.
Qed.

Lemma b64_simulateSystem_length (limite : nat) (mensaje : string)
      (p : B64.Parametros) (c : B64.ControlSimulacion) (r : B64.Resultados) :
  B64.simulateSystem limite mensaje p c = B64.Retorna r ->
  length (B64.tiempo r) = B64.vueltas (B64.pasos c)
  /\ length (B64.posicion r) = B64.vueltas (B64.pasos c)
  /\ length (B64.velocidad r) = B64.vueltas (B64.pasos c)
  /\ length (B64.aceleracion r) = B64.vueltas (B64.pasos c).
Proof.
  intros Hr.
  pose proof (b64_simulateSystem_casos limite mensaje p c) as H. cbv zeta in H.
  rewrite Hr in H. destruct H as (_ & _ & Ht & Hp & Hv & Ha & _).
  rewrite Ht, Hp, Hv, Ha. now rewrite !length_map, indices_length.
Qed.

(** With [start < stop] the loop runs at least once, if it ends. *)
Lemma b64_pasos_start_stop (c : B64.ControlSimulacion) :
  (B64.step_time c <? B64.stop_time c)%float = true ->
  B64.pasos c = B64.MasInfinito
  \/ exists z, B64.pasos c = B64.Finito z /\ (0 <= z)%Z.
Proof.
  intros H. exact (pasos_no_negativos _ _ H).
Qed.

(** A window whose quotient overflows: the call does not return. *)
Lemma b64_ventana_infinita (limite : nat) (mensaje : string) (p : B64.Parametros) :
  B64.simulateSystem limite mensaje p (B64.mkControl (-1e308) 1e308 1 0)
  = B64.NoRetorna.
Proof.
  pose proof (b64_simulateSystem_casos limite mensaje p
                (B64.mkControl (-1e308) 1e308 1 0)) as H. cbv zeta in H.
  assert (E : B64.pasos (B64.mkControl (-1e308) 1e308 1 0) = B64.MasInfinito)
    by (vm_compute; reflexivity).
  rewrite E in H.
  destruct (B64.simulateSystem limite mensaje p _) as [r|msg|];
    [destruct H as (H & _); discriminate H
    | destruct H as (_ & H & _); discriminate H
    | reflexivity].
Qed.

(** The windows of the examples. *)
Lemma b64_pasos_inicial : B64.pasos B64.control_inicial = B64.Finito 1000.
Proof. vm_compute. reflexivity. Qed.


(** ** More comparisons of doubles *)

Lemma no_leb_ni_menor_ni_igual (x y : float) :
  (x <=? y)%float = false ->
  (x <? y)%float = false /\ (x =? y)%float = false.
Proof.
  rewrite FloatAxioms.ltb_spec, FloatAxioms.leb_spec, FloatAxioms.eqb_spec.
  unfold SFltb, SFleb, SFeqb.
  destruct (SFcompare (Prim2SF x) (Prim2SF y)) as [[]|]; intros H;
    try discriminate H; split; reflexivity.
Qed.

(** [1 < x] excludes [x < 1] and [x == 1]. *)
Lemma mayor_ni_menor_ni_igual (x : float) :
  (1 <? x)%float = true ->
  (x <? 1)%float = false /\ (x =? 1)%float = false.
Proof.
  intros H. apply no_leb_ni_menor_ni_igual. now apply ltb_no_leb.
Qed.

(** ** The three branches of a sample on doubles *)

Lemma b64_muestra_armonico (p : B64.Parametros) (c : B64.ControlSimulacion)
      (omega zeta : float) (t : R) :
  B64.armonico_simple p = true ->
  B64.muestra p c omega zeta t
  = (B64.valor (B64.valor_inicial c) * cos (B64.valor omega * t)
     + (B64.valor (B64.velocidad_inicial c) / B64.valor omega)
       * sin (B64.valor omega * t),
     - B64.valor (B64.valor_inicial c) * B64.valor omega
       * sin (B64.valor omega * t)
     + B64.valor (B64.velocidad_inicial c) * cos (B64.valor omega * t),
     - B64.valor (B64.valor_inicial c) * B64.valor omega * B64.valor omega
       * cos (B64.valor omega * t)
     - B64.valor (B64.velocidad_inicial c) * B64.valor omega
       * sin (B64.valor omega * t)).
Proof.
  intros Hshm. unfold B64.muestra. rewrite Hshm. reflexivity.
Qed.

Lemma b64_muestra_subamortiguado (p : B64.Parametros) (c : B64.ControlSimulacion)
      (omega zeta : float) (t : R) :
  B64.armonico_simple p = false ->
  (zeta <? 1)%float = true ->
  B64.muestra p c omega zeta t
  = (let omegaD := B64.valor omega * sqrt (1 - B64.valor zeta * B64.valor zeta) in
     let A := B64.valor (B64.valor_inicial c) in
     let B := (B64.valor (B64.velocidad_inicial c)
               + B64.valor zeta * B64.valor omega * A) / omegaD in
     let envelope := exp (- B64.valor zeta * B64.valor omega * t) in
     let position := envelope * (A * cos (omegaD * t) + B * sin (omegaD * t)) in
     let velocity :=
       envelope * ((- B64.valor zeta * B64.valor omega * A + omegaD * B)
                   * cos (omegaD * t)
                   + (- omegaD * A - B64.valor zeta * B64.valor omega * B)
                     * sin (omegaD * t)) in
     (position, velocity,
      - B64.valor (B64.constante_resorte p) / B64.valor (B64.masa p) * position
      - B64.valor (B64.constante_amortiguamiento p) / B64.valor (B64.masa p)
        * velocity)).
Proof.
  intros Hshm Hz. unfold B64.muestra. rewrite Hshm, Hz. reflexivity.
Qed.

(** The form values [m = 0.4], [k = 0.9], [b = 1.2]: the computed [zeta] is
    [0.9999999999999998] and a sample is underdamped. *)
Lemma b64_zeta_ejemplo :
  (B64.zeta (B64.mkParametros 0.4 0.9 1.2 "0" "amortiguado") <? 1)%float = true.
Proof. vm_compute. reflexivity. Qed.

Lemma b64_muestra_sobreamortiguado (p : B64.Parametros) (c : B64.ControlSimulacion)
      (omega zeta : float) (t : R) :
  B64.armonico_simple p = false ->
  (1 <=? zeta)%float = true ->
  B64.muestra p c omega zeta t
  = (let position :=
       B64.valor (B64.valor_inicial c)
       * exp (- B64.valor zeta * B64.valor omega * t)
       * cos (B64.valor omega * t) in
     let velocity :=
       B64.valor (B64.valor_inicial c)
       * exp (- B64.valor zeta * B64.valor omega * t)
       * (- B64.valor zeta * B64.valor omega * cos (B64.valor omega * t)
          - B64.valor omega * sin (B64.valor omega * t)) in
     (position, velocity,
      - B64.valor (B64.constante_resorte p) / B64.valor (B64.masa p) * position
      - B64.valor (B64.constante_amortiguamiento p) / B64.valor (B64.masa p)
        * velocity)).
Proof.
  intros Hshm Hz. unfold B64.muestra. rewrite Hshm.
  rewrite (leb_no_ltb _ _ Hz). reflexivity.
Qed.

(** With [start < stop] a returned object has at least one sample. *)
Lemma b64_vueltas_pos (limite : nat) (mensaje : string)
      (p : B64.Parametros) (c : B64.ControlSimulacion) (r : B64.Resultados) :
  (B64.step_time c <? B64.stop_time c)%float = true ->
  B64.simulateSystem limite mensaje p c = B64.Retorna r ->
  exists z, B64.pasos c = B64.Finito z /\ (0 <= z)%Z
            /\ B64.vueltas (B64.pasos c) = Z.to_nat (z + 1).
Proof.
  intros Hc Hr.
  pose proof (b64_simulateSystem_casos limite mensaje p c) as H. cbv zeta in H.
  rewrite Hr in H. destruct H as (Hsf & _).
  destruct (b64_pasos_start_stop c Hc) as [E|(z & E & Hz)].
  - rewrite E in Hsf. discriminate Hsf.
  - exists z. rewrite E. repeat split; assumption.
Qed.

(** ** Lengths and sampling instants *)

(** C5. For [t_stop > t_start], whenever the generator returns, the four
    sequences have the same length [N = floor((t_stop - t_start)/0.01) + 1],
    the quotient and its floor being those of the doubles, with [N >= 1];
    [tiempo[0]] is [t_start] and [tiempo[i] = t_start + i * 0.01] for every
    [i < N].  The generator does return when that floor is below [2^53] and
    [N] is within the limit of the engine. *)
Theorem longitudes_binary64 (limite : nat) (mensaje : string)
        (p : B64.Parametros) (c : B64.ControlSimulacion) :
  (B64.step_time c <? B64.stop_time c)%float = true ->
  (forall z,
     B64.Math_floor ((B64.stop_time c - B64.step_time c) / 0.01)%float = B64.Finito z ->
     (z < 2 ^ 53)%Z -> (z + 1 <= Z.of_nat limite)%Z ->
     exists r, B64.simulateSystem limite mensaje p c = B64.Retorna r)
  /\ (forall r,
        B64.simulateSystem limite mensaje p c = B64.Retorna r ->
        exists z,
          B64.Math_floor ((B64.stop_time c - B64.step_time c) / 0.01)%float
          = B64.Finito z
          /\ (0 <= z)%Z
          /\ Z.of_nat (length (B64.tiempo r)) = (z + 1)%Z
          /\ Z.of_nat (length (B64.posicion r)) = (z + 1)%Z
          /\ Z.of_nat (length (B64.velocidad r)) = (z + 1)%Z
          /\ Z.of_nat (length (B64.aceleracion r)) = (z + 1)%Z
          /\ nth_error (B64.tiempo r) 0 = Some (B64.valor (B64.step_time c))
          /\ (forall i, (Z.of_nat i < z + 1)%Z ->
                nth_error (B64.tiempo r) i
                = Some (B64.valor (B64.step_time c)
                        + INR i * B64.valor 0.01%float))).
Proof.
  intros Hc. fold (B64.pasos c). split.
  - intros z Hz H53 Hlim.
    apply b64_simulateSystem_retorna; rewrite Hz.
    + cbn [B64.sin_fin]. apply Z.leb_gt. exact H53.
    + cbn [B64.vueltas]. lia.
  - intros r Hr.
    destruct (b64_vueltas_pos limite mensaje p c r Hc Hr) as (z & Ez & Hz & Hn).
    destruct (b64_simulateSystem_length limite mensaje p c r Hr) as (Lt & Lp & Lv & La).
    exists z. rewrite Lt, Lp, Lv, La, Hn.
    split; [exact Ez | split; [exact Hz |]].
    repeat split; try lia.
    + destruct (b64_simulateSystem_nth limite mensaje p c r O Hr) as (H0 & _);
        [rewrite Hn; lia |].
      rewrite H0. unfold B64.instante. cbn [INR]. f_equal. ring.
    + intros i Hi.
      destruct (b64_simulateSystem_nth limite mensaje p c r i Hr) as (Hi' & _);
        [rewrite Hn; lia |].
      exact Hi'.
Qed.

Lemma longitudes_binary64_witness :
  exists r,
    B64.simulateSystem B64.limite_ejemplo B64.mensaje_ejemplo
      B64.parametros_iniciales B64.control_inicial = B64.Retorna r
    /\ length (B64.tiempo r) = 1001%nat.
Proof.
  destruct (longitudes_binary64 B64.limite_ejemplo B64.mensaje_ejemplo
              B64.parametros_iniciales B64.control_inicial eq_refl)
    as (Hret & Hlen).
  destruct (Hret 1000%Z b64_pasos_inicial) as (r & Hr);
    [reflexivity | unfold B64.limite_ejemplo; lia |].
  exists r. split; [exact Hr |].
  destruct (Hlen r Hr) as (z & Ez & _ & Lt & _).
  change (B64.pasos B64.control_inicial = B64.Finito z) in Ez.
  rewrite b64_pasos_inicial in Ez. injection Ez as <-.
  apply Nat2Z.inj. rewrite Lt. reflexivity.
Defined.

(** The floor is that of the quotient of doubles: a window of 2.3 seconds
    has 230 samples ([2.3 / 0.01] is [229.99999999999997]), and a window of
    0.3 seconds has 31: [0.3 / 0.01] is rounded to [30], although the
    quotient of the values of the two doubles is below 30. *)
Lemma b64_pasos_ejemplos :
  B64.pasos (B64.mkControl 0 2.3 1 0) = B64.Finito 229
  /\ B64.pasos (B64.mkControl 0 0.3 1 0) = B64.Finito 30
  /\ Math_floor (B64.valor 0.3 / B64.valor 0.01) = 29%Z.
Proof.
  split; [vm_compute; reflexivity | split; [vm_compute; reflexivity |]].
  rewrite (b64_valor_finito 0.3 false 5404319552844595 (-54)) by reflexivity.
  rewrite (b64_valor_finito 0.01 false 5764607523034235 (-59)) by reflexivity.
  cbn [cond_Zopp].
  change (-54)%Z with (- Z.of_nat 54)%Z. change (-59)%Z with (- Z.of_nat 59)%Z.
  rewrite !powerRZ_neg', <- !pow_powerRZ, !pow_IZR by lra.
  change (2 ^ Z.of_nat 54)%Z with 18014398509481984%Z.
  change (2 ^ Z.of_nat 59)%Z with 576460752303423488%Z.
  replace (5404319552844595 * / 18014398509481984
           / (5764607523034235 * / 576460752303423488))
    with (IZR 172938225691027040 / IZR 5764607523034235) by (field; lra).
  rewrite Math_floor_cociente by lia. reflexivity.
Qed.

(** ** Critically damped and overdamped motion *)

(** C3. For valid parameters routed to the last branch (the kind is not the
    unforced undamped one and the computed double [zeta] satisfies
    [zeta >= 1]), with finite doubles, every sample of a returned object has
    position [y0 e^(-zeta w0 t_i) cos(w0 t_i)] and velocity
    [y0 e^(-zeta w0 t_i) (-zeta w0 cos(w0 t_i) - w0 sin(w0 t_i))], which is
    the derivative of that position formula, and every acceleration sample
    is [-(k/m) posicion[i] - (b/m) velocidad[i]]; [zeta] and [w0] are the
    values of the doubles the code computes. *)
Theorem sobreamortiguado_binary64 (limite : nat) (mensaje : string)
        (p : B64.Parametros) (c : B64.ControlSimulacion) (r : B64.Resultados) :
  B64.validos p ->
  (B64.step_time c <? B64.stop_time c)%float = true ->
  B64.armonico_simple p = false ->
  (1 <=? B64.constante_amortiguamiento p
         / (2 * PrimFloat.sqrt (B64.masa p * B64.constante_resorte p)))%float = true ->
  B64.finitos p c = true ->
  B64.simulateSystem limite mensaje p c = B64.Retorna r ->
  let w0 := B64.valor (PrimFloat.sqrt (B64.constante_resorte p / B64.masa p)) in
  let z :=
    B64.valor (B64.constante_amortiguamiento p
               / (2 * PrimFloat.sqrt (B64.masa p * B64.constante_resorte p)))%float in
  let y0 := B64.valor (B64.valor_inicial c) in
  let pos := fun t => y0 * exp (- z * w0 * t) * cos (w0 * t) in
  let vel := fun t =>
    y0 * exp (- z * w0 * t) * (- z * w0 * cos (w0 * t) - w0 * sin (w0 * t)) in
  (forall i, (i < length (B64.posicion r))%nat ->
     exists x v a,
       nth_error (B64.posicion r) i = Some x
       /\ nth_error (B64.velocidad r) i = Some v
       /\ nth_error (B64.aceleracion r) i = Some a
       /\ x = pos (B64.instante c i)
       /\ v = vel (B64.instante c i)
       /\ a = - (B64.valor (B64.constante_resorte p) / B64.valor (B64.masa p)) * x
              - (B64.valor (B64.constante_amortiguamiento p) / B64.valor (B64.masa p)) * v)
  /\ (forall t, derivable_pt_lim pos t (vel t))
  /\ (0 < length (B64.posicion r))%nat.
Proof.
  intros _ Hc Hshm Hz _ Hr. cbv zeta.
  fold (B64.omega p) (B64.zeta p) in *.
  destruct (b64_vueltas_pos limite mensaje p c r Hc Hr) as (n & _ & Hn & Hv).
  destruct (b64_simulateSystem_length limite mensaje p c r Hr) as (_ & Hlen & _).
  rewrite Hlen. split; [| split; [| rewrite Hv; lia]].
  - intros i Hi.
    destruct (b64_simulateSystem_nth limite mensaje p c r i Hr Hi) as (_ & Hp & Hve & Ha).
    rewrite (b64_muestra_sobreamortiguado p c _ _ _ Hshm Hz) in Hp, Hve, Ha.
    cbv zeta in Hp, Hve, Ha. cbn [fst snd] in Hp, Hve, Ha.
    eexists _, _, _. split; [exact Hp | split; [exact Hve | split; [exact Ha |]]].
    repeat split. unfold Rdiv. ring.
  - intros t. apply derivada_forma_simplificada.
Qed.

Lemma b64_critico_validos : B64.validos B64.amortiguamiento_critico.
Proof. repeat split; vm_compute; reflexivity. Qed.

(** The window of the form, 1001 samples, is within the limit of the
    example. *)
Lemma b64_retorna_ventana_inicial (p : B64.Parametros) :
  exists r,
    B64.simulateSystem B64.limite_ejemplo B64.mensaje_ejemplo
      p B64.control_inicial = B64.Retorna r.
Proof.
  apply b64_simulateSystem_retorna; rewrite b64_pasos_inicial.
  - reflexivity.
  - cbn [B64.vueltas]. unfold B64.limite_ejemplo. lia.
Qed.

Lemma b64_retorna_critico :
  exists r,
    B64.simulateSystem B64.limite_ejemplo B64.mensaje_ejemplo
      B64.amortiguamiento_critico B64.control_inicial = B64.Retorna r.
Proof. exact (b64_retorna_ventana_inicial B64.amortiguamiento_critico). Qed.

Lemma sobreamortiguado_binary64_witness :
  exists r x v a,
    B64.simulateSystem B64.limite_ejemplo B64.mensaje_ejemplo
      B64.amortiguamiento_critico B64.control_inicial = B64.Retorna r
    /\ nth_error (B64.posicion r) 0 = Some x
    /\ nth_error (B64.velocidad r) 0 = Some v
    /\ nth_error (B64.aceleracion r) 0 = Some a
    /\ a = - (B64.valor 4 / B64.valor 1) * x - (B64.valor 4 / B64.valor 1) * v.
Proof.
  destruct b64_retorna_critico as (r & Hr).
  destruct (sobreamortiguado_binary64 B64.limite_ejemplo B64.mensaje_ejemplo
              B64.amortiguamiento_critico B64.control_inicial r
              b64_critico_validos eq_refl eq_refl eq_refl eq_refl Hr)
    as (Hall & _ & Hpos).
  destruct (Hall O Hpos) as (x & v & a & Hx & Hvel & Ha & _ & _ & Hacc).
  exists r, x, v, a. repeat split; assumption.
Defined.

(** C10. In the critically damped / overdamped branch (computed double
    [zeta >= 1]) the arrays posicion, velocidad and aceleracion of a returned
    object do not depend on the initial velocity [v0]: a run with any other
    [v0] returns as well, with the same three arrays; for [t_start = 0] the
    first velocity sample is [-zeta w0 y0] whatever [v0] is, so it equals
    the requested [v0] exactly when [v0 = -zeta w0 y0]. *)
Theorem sobreamortiguado_sin_v0_binary64 (limite : nat) (mensaje : string)
        (p : B64.Parametros) (c : B64.ControlSimulacion) (r : B64.Resultados) :
  B64.validos p ->
  (B64.step_time c <? B64.stop_time c)%float = true ->
  B64.armonico_simple p = false ->
  (1 <=? B64.constante_amortiguamiento p
         / (2 * PrimFloat.sqrt (B64.masa p * B64.constante_resorte p)))%float = true ->
  B64.finitos p c = true ->
  B64.simulateSystem limite mensaje p c = B64.Retorna r ->
  let w0 := B64.valor (PrimFloat.sqrt (B64.constante_resorte p / B64.masa p)) in
  let z :=
    B64.valor (B64.constante_amortiguamiento p
               / (2 * PrimFloat.sqrt (B64.masa p * B64.constante_resorte p)))%float in
  (forall v,
     exists r',
       B64.simulateSystem limite mensaje p (B64.con_velocidad_inicial v c)
       = B64.Retorna r'
       /\ B64.posicion r' = B64.posicion r
       /\ B64.velocidad r' = B64.velocidad r
       /\ B64.aceleracion r' = B64.aceleracion r)
  /\ (B64.valor (B64.step_time c) = 0 ->
      nth_error (B64.velocidad r) 0
      = Some (- z * w0 * B64.valor (B64.valor_inicial c))
      /\ (nth_error (B64.velocidad r) 0 = Some (B64.valor (B64.velocidad_inicial c))
          <-> B64.valor (B64.velocidad_inicial c)
              = - z * w0 * B64.valor (B64.valor_inicial c))).
Proof.
  intros _ Hc Hshm Hz _ Hr. cbv zeta.
  fold (B64.omega p) (B64.zeta p) in *.
  pose proof (b64_simulateSystem_casos limite mensaje p c) as H. cbv zeta in H.
  rewrite Hr in H. destruct H as (Hsf & Hlim & _ & Hp & Hv & Ha & _).
  split.
  - intros v.
    destruct (b64_simulateSystem_retorna limite mensaje p
                (B64.con_velocidad_inicial v c) Hsf Hlim) as (r' & Hr').
    exists r'. split; [exact Hr' |].
    pose proof (b64_simulateSystem_casos limite mensaje p
                  (B64.con_velocidad_inicial v c)) as H'. cbv zeta in H'.
    rewrite Hr' in H'. destruct H' as (_ & _ & _ & Hp' & Hv' & Ha' & _).
    rewrite Hp', Hv', Ha', Hp, Hv, Ha.
    change (B64.pasos (B64.con_velocidad_inicial v c)) with (B64.pasos c).
    change (B64.step_time (B64.con_velocidad_inicial v c)) with (B64.step_time c).
    repeat split; apply map_ext; intros j;
      now rewrite !b64_muestra_sobreamortiguado by assumption.
  - intros Ht0.
    destruct (b64_vueltas_pos limite mensaje p c r Hc Hr) as (n & _ & Hn & Hvu).
    destruct (b64_simulateSystem_nth limite mensaje p c r O Hr) as (_ & _ & Hve & _);
      [rewrite Hvu; lia |].
    rewrite (b64_muestra_sobreamortiguado p c _ _ _ Hshm Hz) in Hve.
    cbv zeta in Hve. cbn [fst snd] in Hve.
    assert (H0 : nth_error (B64.velocidad r) 0
                 = Some (- B64.valor (B64.zeta p) * B64.valor (B64.omega p)
                         * B64.valor (B64.valor_inicial c))).
    { rewrite Hve. unfold B64.instante. rewrite Ht0. cbn [INR].
      replace (0 + 0 * B64.valor 0.01) with 0 by ring. rewrite !Rmult_0_r.
      rewrite exp_0, cos_0, sin_0. f_equal. ring. }
    split; [exact H0 |]. rewrite H0. split.
    + intros E. injection E as E. symmetry. exact E.
    + intros E. now rewrite E.
Qed.

Lemma sobreamortiguado_sin_v0_binary64_witness :
  exists r r',
    B64.simulateSystem B64.limite_ejemplo B64.mensaje_ejemplo
      B64.amortiguamiento_critico B64.control_inicial = B64.Retorna r
    /\ B64.simulateSystem B64.limite_ejemplo B64.mensaje_ejemplo
         B64.amortiguamiento_critico
         (B64.con_velocidad_inicial 5 B64.control_inicial) = B64.Retorna r'
    /\ B64.posicion r' = B64.posicion r.
Proof.
  destruct b64_retorna_critico as (r & Hr).
  destruct (sobreamortiguado_sin_v0_binary64 B64.limite_ejemplo B64.mensaje_ejemplo
              B64.amortiguamiento_critico B64.control_inicial r
              b64_critico_validos eq_refl eq_refl eq_refl eq_refl Hr)
    as (Hind & _).
  destruct (Hind 5%float) as (r' & Hr' & Hp & _).
  exists r, r'. repeat split; assumption.
Defined.

(** ** Damping regime *)

(** C4. The reported [coeficiente_amortiguamiento] is the double [zeta] the
    code computes, [b / (2 * Math.sqrt(m * k))] with every operation rounded,
    and the reported [tipo_amortiguamiento] follows the comparisons of that
    double: 'subamortiguado' exactly when [zeta < 1], 'crítico' exactly when
    [zeta == 1], and 'sobreamortiguado' exactly when [zeta > 1] or [zeta] is
    NaN; for [m = 1], [k = 4], [b = 4] the double is 1, the regime is
    'crítico' and the reported [omega_0] is 2. *)
Theorem clasificacion_binary64 (limite : nat) (mensaje : string)
        (p : B64.Parametros) (c : B64.ControlSimulacion) (r : B64.Resultados) :
  B64.simulateSystem limite mensaje p c = B64.Retorna r ->
  let z := B64.coeficiente_amortiguamiento (B64.parametros r) in
  let tipo := B64.tipo_amortiguamiento (B64.parametros r) in
  z = (B64.constante_amortiguamiento p
       / (2 * PrimFloat.sqrt (B64.masa p * B64.constante_resorte p)))%float
  /\ (tipo = "subamortiguado"%string <-> (z <? 1)%float = true)
  /\ (tipo = "crítico"%string <-> (z =? 1)%float = true)
  /\ (tipo = "sobreamortiguado"%string
      <-> (1 <? z)%float = true \/ B64.es_NaN z = true)
  /\ (B64.masa p = 1%float -> B64.constante_resorte p = 4%float ->
      B64.constante_amortiguamiento p = 4%float ->
      z = 1%float
      /\ tipo = "crítico"%string
      /\ B64.omega_0 (B64.parametros r) = 2%float).
Proof.
  intros Hr. cbv zeta.
  pose proof (b64_simulateSystem_casos limite mensaje p c) as H. cbv zeta in H.
  rewrite Hr in H. destruct H as (_ & _ & _ & _ & _ & _ & ->).
  cbn [B64.parametros B64.coeficiente_amortiguamiento B64.tipo_amortiguamiento
       B64.omega_0].
  split; [reflexivity |].
  fold (B64.zeta p).
  split; [| split; [| split]].
  - destruct (B64.zeta p <? 1)%float eqn:E1; [split; reflexivity |].
    destruct (B64.zeta p =? 1)%float; split; discriminate.
  - destruct (B64.zeta p <? 1)%float eqn:E1.
    + rewrite (ltb_no_eqb _ _ E1). split; discriminate.
    + destruct (B64.zeta p =? 1)%float; split; (reflexivity || discriminate).
  - destruct (B64.zeta p <? 1)%float eqn:E1.
    + split; [discriminate |]. intros [H|H].
      * destruct (mayor_ni_menor_ni_igual _ H) as (H' & _). congruence.
      * destruct (NaN_no_compara _ H) as (H' & _). congruence.
    + destruct (B64.zeta p =? 1)%float eqn:E2.
      * split; [discriminate |]. intros [H|H].
        -- destruct (mayor_ni_menor_ni_igual _ H) as (_ & H'). congruence.
        -- destruct (NaN_no_compara _ H) as (_ & H' & _). congruence.
      * split; [| reflexivity]. intros _. now apply ni_menor_ni_igual.
  - intros Hm Hk Hb. unfold B64.zeta, B64.omega. rewrite Hm, Hk, Hb.
    repeat split.
Qed.

Lemma clasificacion_binary64_witness :
  exists r,
    B64.simulateSystem B64.limite_ejemplo B64.mensaje_ejemplo
      B64.amortiguamiento_critico B64.control_inicial = B64.Retorna r
    /\ B64.tipo_amortiguamiento (B64.parametros r) = "crítico"%string.
Proof.
  destruct b64_retorna_critico as (r & Hr).
  exists r. split; [exact Hr |].
  destruct (clasificacion_binary64 B64.limite_ejemplo B64.mensaje_ejemplo
              B64.amortiguamiento_critico B64.control_inicial r Hr)
    as (_ & _ & _ & _ & Hej).
  destruct (Hej eq_refl eq_refl eq_refl) as (_ & Htipo & _).
  exact Htipo.
Defined.

(** The double nearest to [2 sqrt 2] is above [2 sqrt 2]. *)
Lemma b64_valor_casi_critico :
  2 * sqrt 2 < B64.valor (B64.constante_amortiguamiento B64.casi_critico).
Proof.
  cbn [B64.constante_amortiguamiento B64.casi_critico].
  rewrite (b64_valor_finito _ false 6369051672525773 (-51)) by reflexivity.
  cbn [cond_Zopp]. change (-51)%Z with (- Z.of_nat 51)%Z.
  rewrite powerRZ_neg', <- pow_powerRZ, pow_IZR by lra.
  change (2 ^ Z.of_nat 51)%Z with 2251799813685248%Z.
  set (b := 6369051672525773 * / 2251799813685248).
  assert (Hb : 0 <= b / 2) by (unfold b; lra).
  assert (Hs : sqrt 2 < b / 2).
  { rewrite <- (sqrt_square (b / 2)) by exact Hb.
    apply sqrt_lt_1_alt. unfold b. lra. }
  lra.
Qed.

(** C4, counterexample.  For [m = 1], [k = 2] and [b] the double
    [2.8284271247461903], the exact quotient [b / (2 sqrt(m k))] is above 1
    and the regime reported is 'crítico': the code computes [zeta = 1].  For
    [m = k = 1e-200] and [b = 0], valid parameters with the exact quotient 0,
    the regime reported is 'sobreamortiguado': the product [m k] underflows
    and the code computes [zeta = 0 / 0], which is NaN and not above 1. *)
Lemma regimen_y_razon_exacta :
  (B64.validos B64.casi_critico
   /\ 1 < B64.valor (B64.constante_amortiguamiento B64.casi_critico)
          / (2 * sqrt (B64.valor (B64.masa B64.casi_critico)
                       * B64.valor (B64.constante_resorte B64.casi_critico)))
   /\ exists r,
        B64.simulateSystem B64.limite_ejemplo B64.mensaje_ejemplo
          B64.casi_critico B64.control_inicial = B64.Retorna r
        /\ B64.tipo_amortiguamiento (B64.parametros r) = "crítico"%string)
  /\ (B64.validos B64.diminuto
      /\ B64.valor (B64.constante_amortiguamiento B64.diminuto)
         / (2 * sqrt (B64.valor (B64.masa B64.diminuto)
                      * B64.valor (B64.constante_resorte B64.diminuto))) < 1
      /\ (1 <? B64.zeta B64.diminuto)%float = false
      /\ exists r,
           B64.simulateSystem B64.limite_ejemplo B64.mensaje_ejemplo
             B64.diminuto B64.control_inicial = B64.Retorna r
           /\ B64.tipo_amortiguamiento (B64.parametros r)
              = "sobreamortiguado"%string).
Proof.
  pose proof b64_retorna_ventana_inicial as Hret.
  assert (Htipo : forall p r,
             B64.simulateSystem B64.limite_ejemplo B64.mensaje_ejemplo
               p B64.control_inicial = B64.Retorna r ->
             B64.tipo_amortiguamiento (B64.parametros r)
             = if (B64.zeta p <? 1)%float then "subamortiguado"%string
               else if (B64.zeta p =? 1)%float then "crítico"%string
               else "sobreamortiguado"%string).
  { intros p r Hr.
    pose proof (b64_simulateSystem_casos B64.limite_ejemplo B64.mensaje_ejemplo
                  p B64.control_inicial) as H. cbv zeta in H.
    rewrite Hr in H. destruct H as (_ & _ & _ & _ & _ & _ & ->). reflexivity. }
  split.
  - split; [repeat split; vm_compute; reflexivity |]. split.
    + pose proof b64_valor_casi_critico as Hb.
      cbn [B64.masa B64.constante_resorte B64.casi_critico].
      rewrite b64_valor_1, b64_valor_2, Rmult_1_l.
      assert (Hs : 0 < sqrt 2) by (apply sqrt_lt_R0; lra).
      apply (Rmult_lt_reg_r (2 * sqrt 2)); [lra |].
      unfold Rdiv. rewrite Rmult_assoc, Rinv_l by lra. lra.
    + destruct (Hret B64.casi_critico) as (r & Hr).
      exists r. split; [exact Hr |]. rewrite (Htipo _ _ Hr). reflexivity.
  - split; [repeat split; vm_compute; reflexivity |]. split; [| split].
    + replace (B64.valor (B64.constante_amortiguamiento B64.diminuto)) with 0
        by reflexivity.
      unfold Rdiv. rewrite Rmult_0_l. lra.
    + reflexivity.
    + destruct (Hret B64.diminuto) as (r & Hr).
      exists r. split; [exact Hr |]. rewrite (Htipo _ _ Hr). reflexivity.
Qed.

(** ** Validation and the stored trajectory *)

Lemma b64_validar_valido (p : B64.Parametros) (st : B64.Estado) :
  B64.validos p -> B64.validar p st = B64.Valor tt st.
Proof.
  intros (Hm & Hk & Hb). unfold B64.validar, B64.bind, B64.ret, B64.throw.
  rewrite (ltb_no_leb _ _ Hm), (ltb_no_leb _ _ Hk), (leb_no_ltb _ _ Hb).
  reflexivity.
Qed.



Lemma b64_ejecutar_valido (limite : nat) (mensaje : string) (st : B64.Estado) :
  B64.validos (B64.st_parametros st) ->
  B64.ejecutar limite mensaje st
  = match B64.simulateSystem limite mensaje
            (B64.st_parametros st) (B64.st_control st) with
    | B64.Retorna data =>
        B64.Valor tt
          (B64.mkEstado (B64.st_parametros st) (B64.st_control st)
             (if auto_escala (B64.escalaGrafico st)
              then autoEscala (B64.posicion data) (B64.escalaGrafico st)
              else B64.escalaGrafico st)
             (Some data) false "")
    | B64.Lanza msg =>
        B64.Valor tt
          (B64.mkEstado (B64.st_parametros st) (B64.st_control st)
             (B64.escalaGrafico st) (B64.resultados st) false
             (o_bien msg "Error en la simulación"))
    | B64.NoRetorna => B64.Pendiente
    end.
Proof.
  intros Hv.
  unfold B64.ejecutar, B64.ejecutarSimulacion, B64.try_catch_finally, B64.finally.
  unfold B64.bind at 1 2 3. unfold B64.setLoading at 1, B64.setError at 1.
  rewrite (b64_validar_valido _ _ Hv).
  unfold B64.bind, B64.llamar.
  destruct (B64.simulateSystem limite mensaje _ _) as [data|msg|];
    [| reflexivity | reflexivity].
  unfold B64.setResultados, B64.setEscalaGrafico, B64.ret, B64.setLoading.
  destruct (auto_escala (B64.escalaGrafico st)); reflexivity.
Qed.




(** ** An example of the library, then a request *)

(** X17. Loading an example keeps the time window and the error shown and
    drops the stored results at once; a request after loading an example of
    the library always passes the validation, and it stores the trajectory of
    the example over the window that was set before, with no error, whenever
    the generator returns one. *)
Theorem cargarEjemplo_y_ejecutar_binary64 (limite : nat) (mensaje : string)
        (ejemplo : B64.Ejemplo) (st : B64.Estado) (r : B64.Resultados) :
  In ejemplo B64.ejemplos ->
  let p := B64.mkParametros (B64.ej_masa ejemplo) (B64.ej_constante_resorte ejemplo)
             (B64.ej_constante_amortiguamiento ejemplo)
             (B64.ej_fuerza ejemplo) (B64.ej_tipo_ecuacion ejemplo) in
  let c := B64.mkControl (B64.step_time (B64.st_control st))
             (B64.stop_time (B64.st_control st))
             (B64.ej_valor_inicial ejemplo) (B64.ej_velocidad_inicial ejemplo) in
  let st1 := B64.mkEstado p c (B64.escalaGrafico st) None
               (B64.loading st) (B64.error st) in
  B64.simulateSystem limite mensaje p c = B64.Retorna r ->
  B64.cargarEjemplo ejemplo st = B64.Valor tt st1
  /\ B64.validar p st1 = B64.Valor tt st1
  /\ exists st2,
       B64.ejecutar limite mensaje st1 = B64.Valor tt st2
       /\ B64.error st2 = ""%string
       /\ B64.resultados st2 = Some r.
Proof.
  intros Hin. cbv zeta. intros Hr.
  split; [reflexivity |].
  assert (Hv : B64.validos
                 (B64.mkParametros (B64.ej_masa ejemplo)
                    (B64.ej_constante_resorte ejemplo)
                    (B64.ej_constante_amortiguamiento ejemplo)
                    (B64.ej_fuerza ejemplo) (B64.ej_tipo_ecuacion ejemplo))).
  { unfold B64.ejemplos in Hin.
    destruct Hin as [<-|[<-|[<-|[]]]]; repeat split; vm_compute; reflexivity. }
  split; [exact (b64_validar_valido _ _ Hv) |].
  rewrite b64_ejecutar_valido by exact Hv.
  cbn [B64.st_parametros B64.st_control]. rewrite Hr.
  eexists. split; [reflexivity |]. split; reflexivity.
Qed.

Lemma cargarEjemplo_y_ejecutar_binary64_witness :
  exists st2,
    B64.ejecutar B64.limite_ejemplo B64.mensaje_ejemplo
      (B64.mkEstado B64.amortiguamiento_critico B64.control_inicial
         (B64.escalaGrafico B64.estado_masa_nula) None
         (B64.loading B64.estado_masa_nula) (B64.error B64.estado_masa_nula))
    = B64.Valor tt st2
    /\ B64.error st2 = ""%string.
Proof.
  destruct b64_retorna_critico as (r & Hr).
  destruct (cargarEjemplo_y_ejecutar_binary64 B64.limite_ejemplo B64.mensaje_ejemplo
              (B64.mkEjemplo "Amortiguamiento Crítico"
                             "Sistema con amortiguamiento crítico"
                             1 4 4 "0" "amortiguado" 1 0)
              B64.estado_masa_nula r)
    as (_ & _ & st2 & Hfin & He & _).
  - unfold B64.ejemplos. right. left. reflexivity.
  - exact Hr.
  - exists st2. split; [exact Hfin | exact He].
Defined.
